(** * A verification development for [bot.py], the SQLite interface bot.

    The file embeds the storage gateway of [bot.py] (class [DB], the upload
    handler [upload_csv]) and proves the properties that its specification
    states about it.

    Layout:
    - [Text]: the operations of Python's [str] that the code uses
      ([replace], [split], [endswith], f-string formatting of an [int]);
    - [Sha256]: [hashlib.sha256(..).hexdigest()];
    - [Engine]: what the code needs from sqlite3, pandas and the transport,
      as an interface, with two small executable instances;
    - [Bot]: the functions of [bot.py];
    - the theorems.

    A Python [str] is modelled as a [string] holding its UTF-8 encoding, so
    [s.encode('utf-8')] is the identity; the patterns the code searches for
    are ASCII, for which byte-wise and code-point-wise matching agree. *)

From Stdlib Require Import ZArith List String Ascii Lia Bool.
From stdpp Require Import base tactics option list gmap strings pretty.

Local Open Scope string_scope.
Local Open Scope list_scope.

(** ** Python [str] operations *)

Module Text.

(** [s.startswith(p)] *)
Fixpoint startswith (s p : string) {struct p} : bool :=
  match p, s with
  | EmptyString, _ => true
  | String _ _, EmptyString => false
  | String b p', String a s' => if Ascii.eqb a b then startswith s' p' else false
  end.

(** [s.endswith(p)]: [p] is [s] itself or a suffix of the tail of [s]. *)
Fixpoint endswith (s p : string) : bool :=
  match s with
  | EmptyString => String.eqb p EmptyString
  | String _ s' => String.eqb s p || endswith s' p
  end.

(** [sep.join(segs)] *)
Fixpoint join (sep : string) (segs : list string) : string :=
  match segs with
  | [] => EmptyString
  | [x] => x
  | x :: rest => x +:+ sep +:+ join sep rest
  end.

(** Prepend a character to the first segment of a split under construction. *)
Definition push_head (c : ascii) (segs : list string) : list string :=
  match segs with
  | [] => [String c EmptyString]
  | seg :: rest => String c seg :: rest
  end.

(** The left-to-right scan shared by [str.replace] and [str.split] for a
    non-empty pattern: at each position where the pattern starts, consume it
    whole ([skip] counts the characters of a match still to be passed over);
    elsewhere, keep the character and advance by one. *)
Fixpoint replace_scan (old new : string) (skip : nat) (s : string) : string :=
  match s with
  | EmptyString => EmptyString
  | String c s' =>
      match skip with
      | S k => replace_scan old new k s'
      | O =>
          if startswith s old
          then new +:+ replace_scan old new (String.length old - 1) s'
          else String c (replace_scan old new 0 s')
      end
  end.

Fixpoint split_scan (sep : string) (skip : nat) (s : string) : list string :=
  match s with
  | EmptyString => [EmptyString]
  | String c s' =>
      match skip with
      | S k => split_scan sep k s'
      | O =>
          if startswith s sep
          then EmptyString :: split_scan sep (String.length sep - 1) s'
          else push_head c (split_scan sep 0 s')
      end
  end.

(** For the empty pattern, [str.replace] puts [new] before every character
    and at the end. *)
Fixpoint intersperse_all (new s : string) : string :=
  match s with
  | EmptyString => new
  | String c s' => new +:+ String c (intersperse_all new s')
  end.

(** [s.replace(old, new)] *)
Definition replace (s old new : string) : string :=
  match old with
  | EmptyString => intersperse_all new s
  | String _ _ => replace_scan old new 0 s
  end.

(** [s.split(sep)] for a non-empty [sep] (Python raises [ValueError] on an
    empty separator: [None] here). *)
Definition split (s sep : string) : option (list string) :=
  match sep with
  | EmptyString => None
  | String _ _ => Some (split_scan sep 0 s)
  end.

(** [l[-1]]; the list that [split] returns is never empty. *)
Definition last_item (l : list string) : string := List.last l EmptyString.

(** The number of positions of [s] at which [p] starts. *)
Fixpoint occurrences (s p : string) : nat :=
  match s with
  | EmptyString => if startswith s p then 1 else 0
  | String _ s' => (if startswith s p then 1 else 0) + occurrences s' p
  end.

(** Membership of a character. *)
Fixpoint has_char (c : ascii) (s : string) : bool :=
  match s with
  | EmptyString => false
  | String a s' => Ascii.eqb a c || has_char c s'
  end.

(** [s[n:]] *)
Fixpoint string_drop (n : nat) (s : string) : string :=
  match n, s with
  | O, _ => s
  | S k, String _ s' => string_drop k s'
  | S _, EmptyString => EmptyString
  end.

(** [f"{n}"] for an [int]: decimal digits, with a leading minus sign for a
    negative number. *)
Definition str_int (n : Z) : string := pretty n.

End Text.

Import Text.

(** ** [hashlib.sha256(data).hexdigest()]

    SHA-256 as in FIPS 180-4, on 32-bit words held in [Z] with the
    wrap-around written out. *)

Module Sha256.
Local Open Scope Z_scope.

Definition w32 (x : Z) : Z := x mod 2 ^ 32.
Definition add32 (x y : Z) : Z := w32 (x + y).
Definition not32 (x : Z) : Z := Z.lxor x 0xffffffff.
Definition rotr (n x : Z) : Z :=
  Z.lor (Z.shiftr x n) (w32 (Z.shiftl x (32 - n))).
Definition shr (n x : Z) : Z := Z.shiftr x n.

Definition Ch (x y z : Z) : Z := Z.lxor (Z.land x y) (Z.land (not32 x) z).
Definition Maj (x y z : Z) : Z :=
  Z.lxor (Z.lxor (Z.land x y) (Z.land x z)) (Z.land y z).
Definition Sigma0 (x : Z) : Z := Z.lxor (Z.lxor (rotr 2 x) (rotr 13 x)) (rotr 22 x).
Definition Sigma1 (x : Z) : Z := Z.lxor (Z.lxor (rotr 6 x) (rotr 11 x)) (rotr 25 x).
Definition sigma0 (x : Z) : Z := Z.lxor (Z.lxor (rotr 7 x) (rotr 18 x)) (shr 3 x).
Definition sigma1 (x : Z) : Z := Z.lxor (Z.lxor (rotr 17 x) (rotr 19 x)) (shr 10 x).

(** The constants of the standard are the first 32 bits of the fractional
    parts of the cube roots (round constants) and of the square roots
    (initial hash value) of the first primes. *)
Definition is_prime (n : nat) : bool :=
  forallb (fun d => negb (Nat.eqb (Nat.modulo n d) 0)) (seq 2 (n - 2)).

Definition primes (count : nat) : list Z :=
  map Z.of_nat (take count (filter (fun n => is_prime n = true) (seq 2 310))).

(** The integer cube root of a number below [2 ^ 105], bit by bit. *)
Definition icbrt (n : Z) : Z :=
  fold_left (fun r i => let c := r + 2 ^ Z.of_nat i in
                        if c * c * c <=? n then c else r)
            (rev (seq 0 35)) 0.

Definition K : list Z :=
  Eval vm_compute in map (fun p => w32 (icbrt (p * 2 ^ 96))) (primes 64).

(** The eight working words. *)
Record state := State { sa : Z; sb : Z; sc : Z; sd : Z; se : Z; sf : Z; sg : Z; sh : Z }.

Definition H0 : state :=
  Eval vm_compute in
  match map (fun p => w32 (Z.sqrt (p * 2 ^ 64))) (primes 8) with
  | [a; b; c; d; e; f; g; h] => State a b c d e f g h
  | _ => State 0 0 0 0 0 0 0 0
  end.

(** Padding: a 1 bit, zeros up to 56 modulo 64 bytes, then the bit length
    as a 64-bit big-endian number. *)
Definition be_bytes (n : nat) (x : Z) : list Z :=
  map (fun i => (x / 2 ^ (8 * Z.of_nat i)) mod 256) (rev (seq 0 n)).

Definition pad (msg : list Z) : list Z :=
  let len := Z.of_nat (length msg) in
  msg ++ [0x80] ++ repeat 0 (Z.to_nat ((55 - len) mod 64)) ++ be_bytes 8 (8 * len).

Definition be_word (bs : list Z) : Z :=
  fold_left (fun acc b => acc * 256 + b) bs 0.

(** Cut a list into [n] chunks of [k] elements. *)
Fixpoint chunks (k n : nat) (l : list Z) : list (list Z) :=
  match n with
  | O => []
  | S n' => take k l :: chunks k n' (drop k l)
  end.

Definition block_words (block : list Z) : list Z :=
  map be_word (chunks 4 16 block).

(** The message schedule: 16 words of the block, extended to 64. *)
Definition extend (w : list Z) (t : nat) : list Z :=
  let at_ i := nth (t - i) w 0 in
  w ++ [add32 (add32 (add32 (sigma1 (at_ 2%nat)) (at_ 7%nat)) (sigma0 (at_ 15%nat))) (at_ 16%nat)].

Definition schedule (block : list Z) : list Z :=
  fold_left extend (seq 16 48) (block_words block).

Definition round (s : state) (kw : Z * Z) : state :=
  let t1 := add32 (add32 (add32 (add32 (sh s) (Sigma1 (se s))) (Ch (se s) (sf s) (sg s))) (fst kw)) (snd kw) in
  let t2 := add32 (Sigma0 (sa s)) (Maj (sa s) (sb s) (sc s)) in
  State (add32 t1 t2) (sa s) (sb s) (sc s) (add32 (sd s) t1) (se s) (sf s) (sg s).

Definition compress (h : state) (block : list Z) : state :=
  let s := fold_left round (combine K (schedule block)) h in
  State (add32 (sa h) (sa s)) (add32 (sb h) (sb s)) (add32 (sc h) (sc s))
        (add32 (sd h) (sd s)) (add32 (se h) (se s)) (add32 (sf h) (sf s))
        (add32 (sg h) (sg s)) (add32 (sh h) (sh s)).

Definition digest (msg : list Z) : state :=
  let p := pad msg in
  fold_left compress (chunks 64 (length p / 64) p) H0.

(** Lower-case hexadecimal. *)
Definition hex_digit (x : Z) : ascii :=
  nth (Z.to_nat (x mod 16))
      ["0"; "1"; "2"; "3"; "4"; "5"; "6"; "7"; "8"; "9"; "a"; "b"; "c"; "d"; "e"; "f"]%char
      "0"%char.

Definition hex8 (x : Z) (rest : string) : string :=
  String (hex_digit (x / 0x10000000)) (String (hex_digit (x / 0x1000000))
  (String (hex_digit (x / 0x100000)) (String (hex_digit (x / 0x10000))
  (String (hex_digit (x / 0x1000)) (String (hex_digit (x / 0x100))
  (String (hex_digit (x / 0x10)) (String (hex_digit x) rest))))))).

Definition hex_of_state (s : state) : string :=
  hex8 (sa s) (hex8 (sb s) (hex8 (sc s) (hex8 (sd s)
  (hex8 (se s) (hex8 (sf s) (hex8 (sg s) (hex8 (sh s) EmptyString))))))).

Definition bytes_of_string (s : string) : list Z :=
  map (fun c => Z.of_N (N_of_ascii c)) (list_ascii_of_string s).

(** [hashlib.sha256(s.encode('utf-8')).hexdigest()] *)
Definition sha256_hexdigest (s : string) : string :=
  hex_of_state (digest (bytes_of_string s)).

End Sha256.

(** ** Data that crosses the gateway *)

(** A scalar of a Dataset: null, a number or a string. *)
Inductive value :=
| VNull
| VInt (z : Z)
| VText (s : string).

(** A pandas DataFrame: named columns and rows, in order. *)
Record DataFrame := Frame_ { columns : list string; rows : list (list value) }.

(** A Python exception: its class and [str(e)]. *)
Record exn := Exn { exn_class : string; exn_str : string }.

(** A sqlite3 cursor as returned by [Connection.execute]: the column names
    ([None] for a statement without a result set) and the rows. *)
Record Cursor := Cursor_ { description : option (list string); fetched : list (list value) }.

(** What [DB.query] returns: a DataFrame, the cursor (with [safe=True]),
    or [None]. *)
Inductive result :=
| Frame (df : DataFrame)
| CursorVal (c : Cursor)
| NoneVal.

(** The tables of one database file, by name. *)
Abbreviation database := (gmap string DataFrame).

(** [dict] of query parameters. *)
Abbreviation params_t := (gmap string value).

Global Instance value_eq_dec : EqDecision value.
Proof. solve_decision. Defined.
Global Instance DataFrame_eq_dec : EqDecision DataFrame.
Proof. solve_decision. Defined.
Global Instance exn_eq_dec : EqDecision exn.
Proof. solve_decision. Defined.

(** ** The collaborators of [bot.py]

    sqlite3, pandas and the chat transport are not part of the repository;
    the embedding takes them as an interface. *)

Class Engine := {
  (** [pd.read_sql(sql, conn, params=params)] *)
  read_sql : string -> params_t -> database -> (exn + DataFrame) * database;
  (** [conn.execute(sql, params)] *)
  execute : string -> params_t -> database -> (exn + Cursor) * database;
  (** [df.to_sql(name, conn, if_exists="append", index=False)] *)
  to_sql : DataFrame -> string -> database -> (exn + unit) * database;
  (** whether [sqlite3.connect(path)] succeeds *)
  can_open : string -> bool;
  (** [pd.read_csv] and [pd.read_excel] on the contents of a file *)
  read_csv : string -> exn + DataFrame;
  read_excel : string -> exn + DataFrame;
  (** [context.bot.get_file(document).download(..)]: the bytes of a document *)
  download : string -> exn + string;
}.

(** The constants of [bot_secrets] and the install location. *)
Class Config := {
  SALT : string;
  DB_LOCATION : string;
}.

(** A table name in SQLite's grammar for bare identifiers. *)
Definition is_ident_start (c : ascii) : bool :=
  let n := N_of_ascii c in
  ((65 <=? n) && (n <=? 90) || (97 <=? n) && (n <=? 122) || (n =? 95))%N.

Definition is_ident_char (c : ascii) : bool :=
  let n := N_of_ascii c in
  (is_ident_start c || (48 <=? n) && (n <=? 57))%N.

Fixpoint all_chars (f : ascii -> bool) (s : string) : bool :=
  match s with
  | EmptyString => true
  | String c s' => f c && all_chars f s'
  end.

Definition is_identifier (s : string) : bool :=
  match s with
  | EmptyString => false
  | String c s' => is_ident_start c && all_chars is_ident_char s'
  end.

(** A character of a lower-case hexadecimal number. *)
Definition is_hex_char (c : ascii) : bool :=
  let n := N_of_ascii c in
  ((48 <=? n) && (n <=? 57) || (97 <=? n) && (n <=? 102))%N.

(** A DataFrame that can be written to a table: at least one column, no
    column twice, every row as wide as the header. *)
Definition storable (df : DataFrame) : bool :=
  negb (bool_decide (columns df = [])) && bool_decide (NoDup (columns df))
  && forallb (fun r => Nat.eqb (length r) (length (columns df))) (rows df).

(** [df.to_sql(t, ..)] touches no table but [t], whatever its outcome. *)
Definition append_is_local (E : Engine) : Prop :=
  forall df t (db : database) t',
    t' <> t -> (to_sql df t db).2 !! t' = db !! t'.

(** The outcome of [SELECT * FROM t] depends on table [t] only. *)
Definition select_all_is_local (E : Engine) : Prop :=
  forall t (ps : params_t) (db1 db2 : database),
    is_identifier t = true -> db1 !! t = db2 !! t ->
    (read_sql ("SELECT * FROM " +:+ t) ps db1).1
    = (read_sql ("SELECT * FROM " +:+ t) ps db2).1.

(** A statement whose outcome depends on the content of table [t] only. *)
Definition reads_only {E : Engine} (sql : string) (ps : params_t) (t : string) : Prop :=
  forall db1 db2 : database,
    db1 !! t = db2 !! t -> (read_sql sql ps db1).1 = (read_sql sql ps db2).1.

(** ** The world the bot runs in *)

(** A call that reached the storage engine. *)
Inductive call :=
| ReadSql (sql : string)
| Execute (sql : string)
| ToSql (table : string).

Record world := World {
  (** database files, by path *)
  files : gmap string database;
  (** connections ever opened, by handle: the path and whether still open *)
  handles : list (string * bool);
  (** the calls that reached the storage engine, oldest first *)
  journal : list call;
  (** temporary files, by name, and the counter that names the next one *)
  tmpfiles : gmap string string;
  tmp_counter : nat;
  (** messages sent back through the transport: chat and text *)
  replies : list (Z * string);
  (** what [print] wrote *)
  stdout : list string;
}.

(** A computation that may raise. *)
Definition Py (A : Type) : Type := world -> (exn + A) * world.

Definition ret {A} (a : A) : Py A := fun w => (inr a, w).
Definition raise {A} (e : exn) : Py A := fun w => (inl e, w).
Definition bind {A B} (m : Py A) (k : A -> Py B) : Py B :=
  fun w => match m w with
           | (inr a, w') => k a w'
           | (inl e, w') => (inl e, w')
           end.

(** [try: m except Exception as e: h e] *)
Definition try_except {A} (m : Py A) (h : exn -> Py A) : Py A :=
  fun w => match m w with
           | (inr a, w') => (inr a, w')
           | (inl e, w') => h e w'
           end.

(** [try: m finally: f], where [f] does not raise. *)
Definition try_finally {A} (m : Py A) (f : world -> world) : Py A :=
  fun w => let '(r, w') := m w in (r, f w').

Notation "'do' x <- m ; k" := (bind m (fun x => k))
  (at level 10, x name, m at level 100, k at level 200).
Notation "'do_' m ; k" := (bind m (fun _ => k))
  (at level 10, m at level 100, k at level 200).

Section Primitives.
Context {E : Engine}.

(** [os.path.exists(path)] *)
Definition path_exists (path : string) : Py bool :=
  fun w => (inr (bool_decide (is_Some (files w !! path))
                 || bool_decide (is_Some (tmpfiles w !! path))), w).

(** [sqlite3.connect(path)]: opens the file, creating an empty database
    when there is none; the new handle is returned. *)
Definition connect (path : string) : Py nat :=
  fun w =>
    if can_open path then
      let fs := match files w !! path with
                | Some _ => files w
                | None => <[path := ∅]> (files w)
                end in
      (inr (length (handles w)),
       World fs (handles w ++ [(path, true)]) (journal w)
             (tmpfiles w) (tmp_counter w) (replies w) (stdout w))
    else (inl (Exn "OperationalError" "unable to open database file"), w).

(** [conn.close()] *)
Definition close (h : nat) : world -> world :=
  fun w =>
    World (files w) (alter (fun c => (c.1, false)) h (handles w)) (journal w)
          (tmpfiles w) (tmp_counter w) (replies w) (stdout w).

(** A call through connection [h]: refused on a closed connection,
    otherwise run on the database of the file and entered in the journal. *)
Definition conn_call {A} (h : nat) (c : call)
    (run : database -> (exn + A) * database) : Py A :=
  fun w =>
    match handles w !! h with
    | Some (path, true) =>
        let '(r, db') := run (default ∅ (files w !! path)) in
        (r, World (<[path := db']> (files w)) (handles w) (journal w ++ [c])
                  (tmpfiles w) (tmp_counter w) (replies w) (stdout w))
    | _ => (inl (Exn "ProgrammingError" "Cannot operate on a closed database."), w)
    end.

(** [tempfile.NamedTemporaryFile(delete=False)] *)
Definition NamedTemporaryFile : Py string :=
  fun w =>
    let name := "/tmp/tmp" +:+ pretty (tmp_counter w) in
    (inr name,
     World (files w) (handles w) (journal w)
           (<[name := EmptyString]> (tmpfiles w)) (S (tmp_counter w))
           (replies w) (stdout w)).

(** [tmp.close(); os.unlink(tmp.name)] *)
Definition unlink (name : string) : world -> world :=
  fun w =>
    World (files w) (handles w) (journal w) (delete name (tmpfiles w))
          (tmp_counter w) (replies w) (stdout w).

(** [context.bot.get_file(document).download(out=tmp)] *)
Definition download_to (document tmp : string) : Py unit :=
  fun w =>
    match download document with
    | inl e => (inl e, w)
    | inr bytes =>
        (inr tt,
         World (files w) (handles w) (journal w)
               (<[tmp := bytes]> (tmpfiles w)) (tmp_counter w)
               (replies w) (stdout w))
    end.

(** [update.message.reply_text(msg)] *)
Definition reply_text (chat : Z) (msg : string) : Py unit :=
  fun w =>
    (inr tt,
     World (files w) (handles w) (journal w) (tmpfiles w) (tmp_counter w)
           (replies w ++ [(chat, msg)]) (stdout w)).

(** [print(e)] *)
Definition print (msg : string) : Py unit :=
  fun w =>
    (inr tt,
     World (files w) (handles w) (journal w) (tmpfiles w) (tmp_counter w)
           (replies w) (stdout w ++ [msg])).

End Primitives.

(** ** [bot.py] *)

Module Bot.
Section Bot.
Context {E : Engine} {C : Config}.

(** The dataclass [DB]: the path and the handle of its connection. *)
Record DB := DB_ { db_location : string; _db_conn : nat }.

(** The text of the statement in [create_tables], as written in the source
    between the triple quotes. *)
Definition CREATE_DUMMY : string :=
"
           CREATE TABLE DUMMY
           (
           A int
           )
           ".

(** The text that [query] treats as the absence of a result. *)
Definition SENTINEL : string := "'NoneType' object is not iterable".

(** Truth value of an [Optional[int]] in a condition: [None] and [0] are
    false. *)
Definition truthy (chat_id : option Z) : bool :=
  match chat_id with
  | None => false
  | Some n => negb (n =? 0)%Z
  end.

(** [pd.DataFrame([{"Exception_text": exc_txt}])] *)
Definition error_frame (exc_txt : string) : DataFrame :=
  Frame_ ["Exception_text"] [[VText exc_txt]].

(** [DB.user_table] *)
Definition user_table (chat_id : Z) : string :=
  let h := Sha256.sha256_hexdigest (str_int chat_id +:+ "_" +:+ SALT) in
  let res := "_user_data_" +:+ h in
  res.

(** [DB.upload_df] *)
Definition upload_df (self : DB) (df : DataFrame) (chat_id : Z) : Py unit :=
  conn_call (_db_conn self) (ToSql (user_table chat_id))
            (to_sql df (user_table chat_id)).

(** The journal entry of a statement: [pd.read_sql] or, with [safe],
    [Connection.execute]. *)
Definition stmt_call (safe : bool) (query_text : string) : call :=
  if negb safe then ReadSql query_text else Execute query_text.

(** The body of the [try] in [DB.query]. *)
Definition run_statement (self : DB) (safe : bool) (query_text : string)
    (params : params_t) : Py result :=
  if negb safe then
    conn_call (_db_conn self) (stmt_call safe query_text)
      (fun db => let '(r, db') := read_sql query_text params db in
                 (match r with inl e => inl e | inr df => inr (Frame df) end, db'))
  else
    conn_call (_db_conn self) (stmt_call safe query_text)
      (fun db => let '(r, db') := execute query_text params db in
                 (match r with inl e => inl e | inr c => inr (CursorVal c) end, db')).

(** Lines 87 to 89 of [DB.query]: the placeholder is rewritten when
    [chat_id] is true as a condition. *)
Definition scope (query_text : string) (chat_id : option Z) : string :=
  match chat_id with
  | Some id =>
      if truthy chat_id then
        let table_name := user_table id in
        replace query_text ":tbl" table_name
      else query_text
  | None => query_text
  end.

(** [DB.query] *)
Definition query (self : DB) (query_text : string) (chat_id : option Z)
    (params : option params_t) (safe : bool) (raise_on_error : bool) : Py result :=
  let params := default ∅ params in
  let query_text := scope query_text chat_id in
  try_except (run_statement self safe query_text params)
    (fun e =>
       if raise_on_error then raise e
       else
         let exc_txt := exn_str e in
         if String.eqb exc_txt SENTINEL then ret NoneVal
         else ret (Frame (error_frame exc_txt))).

(** [DB.create_tables] *)
Definition create_tables (self : DB) : Py unit :=
  do_ query self CREATE_DUMMY None None false false;
  ret tt.

(** [DB.__post_init__], run by the constructor [DB(db_location)]. *)
Definition post_init (db_location : string) : Py DB :=
  do db_exists <- path_exists db_location;
  do conn <- connect db_location;
  let self := DB_ db_location conn in
  do_ (if negb db_exists then create_tables self else ret tt);
  ret self.

(** [DB.close_connection] *)
Definition close_connection (self : DB) : Py unit :=
  do_ try_except
        (do_ query self "COMMIT" None None false true; ret tt)
        (fun _ => ret tt);
  fun w => (inr tt, close (_db_conn self) w).

(** [with DB(db_location) as db: body]: [__exit__] closes the connection
    on every exit and lets an exception of the body through. *)
Definition with_DB {A} (db_location : string) (body : DB -> Py A) : Py A :=
  do db <- post_init db_location;
  fun w =>
    let '(r, w1) := body db w in
    let '(_, w2) := close_connection db w1 in
    (r, w2).

(** An upload event of the transport. *)
Record Update := Update_ {
  chat_id_of : Z;
  file_name : string;
  document : string;
}.

Inductive decoder := ReadCsv | ReadExcel.

(** [meth(tmp)] on the file object that [download(out=tmp)] has written
    through, which stands at [position]: [pd.read_csv] reads on from the
    position of the handle, [pd.read_excel] rewinds it and reads the whole
    file. *)
Definition decode_handle (meth : decoder) (content : string) (position : nat)
    : exn + DataFrame :=
  match meth with
  | ReadCsv => read_csv (string_drop position content)
  | ReadExcel => read_excel content
  end.

(** [upload_csv] *)
Definition upload_csv (update : Update) : Py unit :=
  let chat_id := chat_id_of update in
  let fn := file_name update in
  let meth : option decoder :=
    (<[endswith fn ".xls" := ReadExcel]>
      (<[endswith fn ".xlsx" := ReadExcel]>
        (<[endswith fn ".csv" := ReadCsv]> (∅ : gmap bool decoder)))) !! true in
  match meth with
  | None =>
      raise (Exn "TypeError"
                 ("Unsupported file type: " +:+
                  last_item (default [] (split fn "."))))
  | Some meth =>
      do tmp <- NamedTemporaryFile;
      try_finally
        (try_except
           (do_ download_to (document update) tmp;
            do df <- (fun w =>
                        let content := default EmptyString (tmpfiles w !! tmp) in
                        (* the handle is at the end of what was written *)
                        (decode_handle meth content (String.length content), w));
            do_ with_DB DB_LOCATION (fun db => upload_df db df chat_id);
            reply_text chat_id "Uploaded successfully")
           (fun e => do_ print (exn_str e); raise e))
        (unlink tmp)
  end.

End Bot.
End Bot.

Import Bot.

(** ** Two executable engines

    [Mini] answers the few statements that the examples below use the way
    SQLite and pandas answer them; [Faulty e] raises [e] on every call. *)

Module Mini.

Definition SELECT_FROM : string := "SELECT * FROM ".
Definition UNION_ALL : string := " UNION ALL SELECT * FROM ".

(** The double quote of SQLite's messages. *)
Definition dquote : string := String (ascii_of_nat 34) EmptyString.

(** The table that a name in a FROM clause denotes, or SQLite's message. *)
Definition lookup_table (db : database) (t : string) : string + DataFrame :=
  if is_identifier t then
    match db !! t with
    | Some df => inr df
    | None => inl ("no such table: " +:+ t)
    end
  else inl ("near " +:+ dquote +:+ t +:+ dquote +:+ ": syntax error").

(** The tables of a chain of selects, or the message for the first name
    that denotes none. *)
Fixpoint lookup_tables (db : database) (ts : list string) : string + list DataFrame :=
  match ts with
  | [] => inr []
  | t :: ts' =>
      match lookup_table db t with
      | inl msg => inl msg
      | inr df =>
          match lookup_tables db ts' with
          | inl msg => inl msg
          | inr dfs => inr (df :: dfs)
          end
      end
  end.

(** [UNION ALL] of two results with the same number of columns. *)
Definition union_all (acc : option DataFrame) (df : DataFrame) : option DataFrame :=
  match acc with
  | Some a =>
      if Nat.eqb (length (columns a)) (length (columns df))
      then Some (Frame_ (columns a) (rows a ++ rows df))
      else None
  | None => None
  end.

(** One statement on the tables: an error text, or the result set
    ([None] for a statement that has none). *)
Definition run (sql : string) (db : database) : (string + option DataFrame) * database :=
  if startswith sql SELECT_FROM then
    match lookup_tables db (split_scan UNION_ALL 0 (string_drop 14 sql)) with
    | inr (df :: dfs) =>
        match fold_left union_all dfs (Some df) with
        | Some r => (inr (Some r), db)
        | None => (inl "SELECTs to the left and right of UNION ALL do not have the same number of result columns", db)
        end
    | inr [] => (inl "incomplete input", db)
    | inl msg => (inl msg, db)
    end
  else
    match String.words sql with
    | ["CREATE"; "TABLE"; t; "("; col; _; ")"] =>
        if is_identifier t then
          match db !! t with
          | None => (inr None, <[t := Frame_ [col] []]> db)
          | Some _ => (inl ("table " +:+ t +:+ " already exists"), db)
          end
        else (inl "syntax error", db)
    | ["COMMIT"] => (inl "cannot commit - no transaction is active", db)
    | _ => (inl "syntax error", db)
    end.

(** pandas wraps the engine's error, and fails on a statement without a
    result set when it iterates over the missing column descriptions. *)
Definition mini_read_sql (sql : string) (ps : params_t) (db : database)
    : (exn + DataFrame) * database :=
  match run sql db with
  | (inl msg, db') =>
      (inl (Exn "DatabaseError" ("Execution failed on sql '" +:+ sql +:+ "': " +:+ msg)), db')
  | (inr None, db') => (inl (Exn "TypeError" "'NoneType' object is not iterable"), db')
  | (inr (Some df), db') => (inr df, db')
  end.

Definition mini_execute (sql : string) (ps : params_t) (db : database)
    : (exn + Cursor) * database :=
  match run sql db with
  | (inl msg, db') => (inl (Exn "OperationalError" msg), db')
  | (inr None, db') => (inr (Cursor_ None []), db')
  | (inr (Some df), db') => (inr (Cursor_ (Some (columns df)) (rows df)), db')
  end.

Definition mini_to_sql (df : DataFrame) (t : string) (db : database)
    : (exn + unit) * database :=
  if storable df && is_identifier t then
    match db !! t with
    | None => (inr tt, <[t := df]> db)
    | Some old =>
        if bool_decide (columns old = columns df)
        then (inr tt, <[t := Frame_ (columns old) (rows old ++ rows df)]> db)
        else (inl (Exn "OperationalError" ("table " +:+ t +:+ " has different columns")), db)
    end
  else (inl (Exn "ValueError" "cannot write this frame"), db).

(** A one-line-per-row, comma-separated decoder; every field is text. *)
Definition mini_read_csv (content : string) : exn + DataFrame :=
  match split_scan (String "010"%char EmptyString) 0 content with
  | header :: lines =>
      if String.eqb header EmptyString
      then inl (Exn "EmptyDataError" "No columns to parse from file")
      else inr (Frame_ (split_scan "," 0 header)
                       (map (fun l => map VText (split_scan "," 0 l)) lines))
  | [] => inl (Exn "EmptyDataError" "No columns to parse from file")
  end.

Definition engine : Engine := {|
  read_sql := mini_read_sql;
  execute := mini_execute;
  to_sql := mini_to_sql;
  can_open := fun path => negb (startswith path "/missing/");
  read_csv := mini_read_csv;
  read_excel := fun _ => inl (Exn "ValueError" "Excel file format cannot be determined");
  download := fun document => inr document;
|}.

Definition config : Config := {|
  SALT := "pepper";
  DB_LOCATION := "/srv/bot/data/bot_db.sqlite";
|}.

(** A machine on which nothing has happened yet. *)
Definition boot : world := World ∅ [] [] ∅ 0 [] [].

End Mini.

Definition Faulty (e : exn) : Engine := {|
  read_sql := fun _ _ db => (inl e, db);
  execute := fun _ _ db => (inl e, db);
  to_sql := fun _ _ db => (inl e, db);
  can_open := fun _ => true;
  read_csv := fun _ => inl e;
  read_excel := fun _ => inl e;
  download := fun _ => inl e;
|}.

(** The Dataset of the round-trip property. *)
Definition people : DataFrame :=
  Frame_ ["name"; "age"] [[VText "alice"; VInt 30]; [VText "bob"; VInt 25]].

(** The gateway of the examples: the first connection to the bot's database
    on a machine that has just booted, and the world after it was opened. *)
Module Demo.

#[export] Existing Instance Mini.engine.
#[export] Existing Instance Mini.config.

Definition gateway : DB := DB_ DB_LOCATION 0.

Definition opened : world := (post_init DB_LOCATION Mini.boot).2.

(** The world after [sqlite3.connect] alone, before the bootstrap. *)
Definition connected : world := (connect DB_LOCATION Mini.boot).2.

(** The rows of another tenant. *)
Definition own : DataFrame := Frame_ ["name"; "age"] [[VText "carol"; VInt 41]].

(** A query of tenant 7 that names the table of tenant 9 besides its own. *)
Definition foreign_query : string :=
  "SELECT * FROM :tbl UNION ALL SELECT * FROM _user_data_00ebb4acdf1f8b3c60ea5c2dfc6f9cf511bbdd8e6e04a66b1858051ea53f5298".

(** The world after tenant 7 has uploaded a row of its own. *)
Definition stocked : world := (upload_df gateway own 7 opened).2.

(** The executable engine with a spreadsheet decoder that succeeds (it
    reads the bytes as comma-separated text). *)
Definition sheets : Engine := {|
  read_sql := Mini.mini_read_sql;
  execute := Mini.mini_execute;
  to_sql := Mini.mini_to_sql;
  can_open := fun path => negb (startswith path "/missing/");
  read_csv := Mini.mini_read_csv;
  read_excel := Mini.mini_read_csv;
  download := fun document => inr document;
|}.

(** An engine that runs out of memory: [str(MemoryError())] is empty. *)
Definition exhausted : Engine := Faulty (Exn "MemoryError" EmptyString).

End Demo.

(** ** Vocabulary for further properties *)

(** The part of the world that the storage engine has no hand in. *)
Definition aside (w : world)
    : gmap string string * nat * list (Z * string) * list string :=
  (tmpfiles w, tmp_counter w, replies w, stdout w).

(** The name that [NamedTemporaryFile] gives to the next file. *)
Definition next_tmp (w : world) : string := "/tmp/tmp" +:+ pretty (tmp_counter w).

(** The last character of a text. *)
Fixpoint last_char (s : string) : option ascii :=
  match s with
  | EmptyString => None
  | String c EmptyString => Some c
  | String _ s' => last_char s'
  end.

(** The bytes that [user_table] hashes: [f"{chat_id}_{SALT}".encode('utf-8')]. *)
Definition hashed_text {C : Config} (chat_id : Z) : list Z :=
  Sha256.bytes_of_string (str_int chat_id +:+ "_" +:+ SALT).

(** A digest state of eight 32-bit words. *)
Definition word_state (s : Sha256.state) : Prop :=
  (0 <= Sha256.sa s < 2 ^ 32 /\ 0 <= Sha256.sb s < 2 ^ 32
   /\ 0 <= Sha256.sc s < 2 ^ 32 /\ 0 <= Sha256.sd s < 2 ^ 32
   /\ 0 <= Sha256.se s < 2 ^ 32 /\ 0 <= Sha256.sf s < 2 ^ 32
   /\ 0 <= Sha256.sg s < 2 ^ 32 /\ 0 <= Sha256.sh s < 2 ^ 32)%Z.

(** What sqlite3 raises on a closed connection. *)
Definition CLOSED : exn := Exn "ProgrammingError" "Cannot operate on a closed database.".

(** The decoder that the three [endswith] tests of [upload_csv] select. *)
Definition recognized (fn : string) : option decoder :=
  if endswith fn ".csv" then Some ReadCsv
  else if endswith fn ".xlsx" || endswith fn ".xls" then Some ReadExcel
  else None.

(** The world after an upload that faulted with [e] before it reached
    storage: the temporary file has come and gone, the fault is printed. *)
Definition after_fault (w : world) (e : exn) : world :=
  World (files w) (handles w) (journal w) (delete (next_tmp w) (tmpfiles w))
        (S (tmp_counter w)) (replies w) (stdout w ++ [exn_str e]).

(** * Properties *)

(** ** Strings *)

Section TextFacts.

Lemma app_cons (c : ascii) (s t : string) : String c s +:+ t = String c (s +:+ t).
Proof. reflexivity. Qed.

Lemma app_empty_l (t : string) : EmptyString +:+ t = t.
Proof. reflexivity. Qed.

Lemma app_empty_r (s : string) : s +:+ EmptyString = s.
Proof. induction s as [|c s IH]; [reflexivity|]. rewrite app_cons, IH. reflexivity. Qed.

Lemma app_assoc_s (a b c : string) : (a +:+ b) +:+ c = a +:+ (b +:+ c).
Proof.
  induction a as [|x a IH]; [reflexivity|].
  rewrite !app_cons, IH. reflexivity.
Qed.

Lemma length_app_s (a b : string) :
  String.length (a +:+ b) = String.length a + String.length b.
Proof. induction a as [|x a IH]; [reflexivity|]. rewrite app_cons. simpl. lia. Qed.

(** Cancellation on the right. *)
Lemma app_inv_tail_s (a b t : string) : a +:+ t = b +:+ t -> a = b.
Proof.
  revert b. induction a as [|x a IH]; intros [|y b] H.
  - reflexivity.
  - apply (f_equal String.length) in H.
    rewrite app_empty_l, length_app_s in H. simpl in H. lia.
  - apply (f_equal String.length) in H.
    rewrite app_empty_l, length_app_s in H. simpl in H. lia.
  - rewrite !app_cons in H. injection H as -> H. f_equal. auto.
Qed.

Lemma startswith_app (p r : string) : startswith (p +:+ r) p = true.
Proof.
  induction p as [|c p IH]; [destruct r; reflexivity|].
  rewrite app_cons. simpl. rewrite Ascii.eqb_refl. exact IH.
Qed.

Lemma startswith_drop (s p : string) :
  startswith s p = true -> s = p +:+ string_drop (String.length p) s.
Proof.
  revert s. induction p as [|b p IH]; intros s H.
  - reflexivity.
  - destruct s as [|a s]; [discriminate|]. simpl in H.
    destruct (Ascii.eqb_spec a b) as [->|]; [|discriminate].
    rewrite app_cons. simpl. f_equal. auto.
Qed.

Lemma startswith_iff (s p : string) :
  startswith s p = true <-> exists r, s = p +:+ r.
Proof.
  split.
  - intros H. eexists. apply startswith_drop, H.
  - intros [r ->]. apply startswith_app.
Qed.

(** A match of the pattern in a prefix is a match in the whole. *)
Lemma startswith_extend (s r p : string) :
  startswith s p = true -> startswith (s +:+ r) p = true.
Proof.
  intros [t ->]%startswith_iff. rewrite app_assoc_s. apply startswith_app.
Qed.

Lemma string_drop_app (a r : string) : string_drop (String.length a) (a +:+ r) = r.
Proof. induction a as [|c a IH]; [reflexivity|]. rewrite app_cons. simpl. exact IH. Qed.

Lemma endswith_iff (s p : string) :
  endswith s p = true <-> exists pre, s = pre +:+ p.
Proof.
  induction s as [|c s IH]; cbn [endswith].
  - split.
    + intros ->%String.eqb_eq. exists EmptyString. reflexivity.
    + intros [[|x pre] H]; [|discriminate].
      rewrite app_empty_l in H. subst p. reflexivity.
  - rewrite orb_true_iff, IH. split.
    + intros [<-%String.eqb_eq | [pre ->]].
      * exists EmptyString. reflexivity.
      * exists (String c pre). reflexivity.
    + intros [[|x pre] H].
      * left. rewrite app_empty_l in H. subst p. apply String.eqb_refl.
      * right. rewrite app_cons in H. injection H as _ ->. eauto.
Qed.

Lemma split_scan_nonempty (sep : string) (k : nat) (s : string) :
  split_scan sep k s <> [].
Proof.
  revert k. induction s as [|c s IH]; intros k; cbn [split_scan]; [discriminate|].
  destruct k; [|apply IH].
  destruct (startswith (String c s) sep); [discriminate|].
  destruct (split_scan sep 0 s); discriminate.
Qed.

Lemma join_cons (sep x : string) (l : list string) :
  l <> [] -> join sep (x :: l) = x +:+ sep +:+ join sep l.
Proof. destruct l; [congruence | reflexivity]. Qed.

Lemma join_push_head (sep : string) (c : ascii) (l : list string) :
  l <> [] -> join sep (push_head c l) = String c (join sep l).
Proof. destruct l as [|x [|y l]]; [congruence | reflexivity | reflexivity]. Qed.

(** [s.replace(old, new) == new.join(s.split(old))], at every stage of the
    scan. *)
Lemma replace_scan_join (old new : string) (k : nat) (s : string) :
  replace_scan old new k s = join new (split_scan old k s).
Proof.
  revert k. induction s as [|c s IH]; intros k; [reflexivity|].
  cbn [replace_scan split_scan]. destruct k; [|apply IH].
  destruct (startswith (String c s) old).
  - rewrite join_cons by apply split_scan_nonempty.
    rewrite app_empty_l, IH. reflexivity.
  - rewrite join_push_head by apply split_scan_nonempty.
    rewrite IH. reflexivity.
Qed.

(** [old.join(s.split(old)) == s]; with [k] characters of a match still to
    pass over, the scan gives back the rest of [s]. *)
Lemma join_split_scan (old : string) (k : nat) (s : string) :
  old <> EmptyString -> join old (split_scan old k s) = string_drop k s.
Proof.
  intros Hne. revert k.
  induction s as [|c s IH]; intros k; [destruct k; reflexivity|].
  cbn [split_scan string_drop]. destruct k; [|apply IH].
  destruct (startswith (String c s) old) eqn:Hm.
  - rewrite join_cons by apply split_scan_nonempty.
    rewrite app_empty_l, IH.
    destruct old as [|o old]; [congruence|].
    apply startswith_drop in Hm. cbn [String.length string_drop] in Hm.
    replace (String.length (String o old) - 1) with (String.length old)
      by (cbn [String.length]; lia).
    symmetry. exact Hm.
  - rewrite join_push_head by apply split_scan_nonempty.
    rewrite IH. reflexivity.
Qed.

End TextFacts.

(** ** The placeholder [":tbl"] *)

Section Placeholder.

Lemma occurrences_empty (p : string) : p <> EmptyString -> occurrences EmptyString p = 0.
Proof. destruct p; [congruence | reflexivity]. Qed.

(** The first segment of a split is a prefix of the text. *)
Lemma split_scan_head (old s seg : string) (rest : list string) :
  old <> EmptyString -> split_scan old 0 s = seg :: rest -> exists r, s = seg +:+ r.
Proof.
  intros Hne Hs. pose proof (join_split_scan old 0 s Hne) as Hj.
  rewrite Hs in Hj. cbn [string_drop] in Hj. destruct rest as [|y rest].
  - exists EmptyString. rewrite app_empty_r. symmetry. exact Hj.
  - rewrite join_cons in Hj by discriminate. eauto.
Qed.

(** No segment of a split contains the pattern. *)
Lemma split_scan_free (old : string) (k : nat) (s : string) :
  old <> EmptyString ->
  Forall (fun seg => occurrences seg old = 0) (split_scan old k s).
Proof.
  intros Hne. revert k. induction s as [|c s IH]; intros k.
  - constructor; [apply occurrences_empty, Hne | constructor].
  - cbn [split_scan]. destruct k; [|apply IH].
    destruct (startswith (String c s) old) eqn:Hm.
    + constructor; [apply occurrences_empty, Hne | apply IH].
    + specialize (IH 0). destruct (split_scan old 0 s) as [|seg rest] eqn:Hs.
      { exfalso. eapply split_scan_nonempty, Hs. }
      cbn [push_head]. inversion IH as [|? ? Hseg Hrest]; subst.
      constructor; [|exact Hrest]. cbn [occurrences]. rewrite Hseg.
      destruct (startswith (String c seg) old) eqn:Hc; [|reflexivity].
      destruct (split_scan_head old s seg rest Hne Hs) as [r ->].
      apply (startswith_extend _ r) in Hc. rewrite app_cons in Hc. congruence.
Qed.

Lemma occurrences_at_match (r : string) :
  occurrences (":tbl" +:+ r) ":tbl" = S (occurrences r ":tbl").
Proof. reflexivity. Qed.

Lemma length_push_head (c : ascii) (l : list string) :
  l <> [] -> length (push_head c l) = length l.
Proof. destruct l; [congruence | reflexivity]. Qed.

(** The split at the placeholder has one segment more than the text has
    placeholders: two matches of [":tbl"] never overlap. *)
Lemma split_scan_count (s : string) :
  length (split_scan ":tbl" 0 s) = S (occurrences s ":tbl").
Proof.
  remember (String.length s) as n eqn:Hn. revert s Hn.
  induction n as [n IH] using lt_wf_ind. intros s Hn.
  destruct s as [|c s]; [reflexivity|].
  cbn [split_scan occurrences].
  destruct (startswith (String c s) ":tbl") eqn:Hm.
  - apply startswith_drop in Hm. cbn [String.length] in Hm.
    remember (string_drop 4 (String c s)) as r eqn:Er. clear Er.
    assert (Hr : String.length r < n).
    { apply (f_equal String.length) in Hm. rewrite length_app_s in Hm.
      rewrite Hn, Hm. simpl. lia. }
    change (":tbl" +:+ r) with (String ":" ("tbl" +:+ r)) in Hm.
    injection Hm as -> ->.
    change (split_scan ":tbl" (String.length ":tbl" - 1) ("tbl" +:+ r))
      with (split_scan ":tbl" 0 r).
    change (occurrences ("tbl" +:+ r) ":tbl") with (occurrences r ":tbl").
    cbn [length]. rewrite (IH _ Hr r eq_refl). reflexivity.
  - rewrite length_push_head by apply split_scan_nonempty.
    cbn [String.length] in Hn.
    rewrite (IH (String.length s) ltac:(lia) s eq_refl). reflexivity.
Qed.

Lemma all_chars_app (f : ascii -> bool) (a b : string) :
  all_chars f (a +:+ b) = all_chars f a && all_chars f b.
Proof.
  induction a as [|c a IH]; [reflexivity|].
  rewrite app_cons. cbn [all_chars]. rewrite IH, andb_assoc. reflexivity.
Qed.

Lemma all_chars_impl (f g : ascii -> bool) (s : string) :
  (forall c, f c = true -> g c = true) -> all_chars f s = true -> all_chars g s = true.
Proof.
  intros Hfg. induction s as [|c s IH]; [reflexivity|]. cbn [all_chars].
  rewrite !andb_true_iff. intros [? ?]. auto.
Qed.

Lemma all_chars_has_char (f : ascii -> bool) (x : ascii) (s : string) :
  f x = false -> all_chars f s = true -> has_char x s = false.
Proof.
  intros Hx. induction s as [|c s IH]; [reflexivity|]. cbn [all_chars has_char].
  rewrite andb_true_iff. intros [Hc Hs]. rewrite (IH Hs), orb_false_r.
  destruct (Ascii.eqb_spec c x) as [->|]; congruence.
Qed.

(** A text without a colon contains no placeholder, and none can start in
    it. *)
Lemma occurrences_skip_new (new r : string) :
  has_char ":" new = false ->
  occurrences (new +:+ r) ":tbl" = occurrences r ":tbl".
Proof.
  induction new as [|c new IH]; [reflexivity|]. cbn [has_char].
  rewrite orb_false_iff. intros [Hc Hn]. rewrite app_cons.
  cbn [occurrences startswith]. rewrite Hc. apply IH, Hn.
Qed.

(** A placeholder-free segment followed by a text that starts with an
    underscore: no placeholder straddles the border. *)
Lemma occurrences_skip_segment (seg t : string) :
  occurrences seg ":tbl" = 0 ->
  occurrences (seg +:+ String "_" t) ":tbl" = occurrences (String "_" t) ":tbl".
Proof.
  induction seg as [|c seg IH]; [reflexivity|].
  cbn [occurrences]. intros H.
  assert (Hs : occurrences seg ":tbl" = 0) by lia.
  rewrite app_cons. cbn [occurrences]. rewrite (IH Hs).
  assert (Hc : startswith (String c seg) ":tbl" = false)
    by (destruct (startswith (String c seg) ":tbl"); [simpl in H; lia | reflexivity]).
  replace (startswith (String c (seg +:+ String "_" t)) ":tbl") with false;
    [reflexivity|].
  symmetry. clear -Hc.
  destruct seg as [|c1 [|c2 [|c3 seg]]];
    rewrite ?app_cons, ?app_empty_l; cbn [startswith] in Hc |- *;
    repeat (match goal with
            | |- context [Ascii.eqb ?a ?b] => destruct (Ascii.eqb a b)
            end; try reflexivity; try discriminate).
Qed.

(** After every segment is joined with a colon-free text that starts with an
    underscore, no placeholder is left. *)
Lemma occurrences_join_new (t : string) (segs : list string) :
  has_char ":" t = false ->
  Forall (fun seg => occurrences seg ":tbl" = 0) segs ->
  occurrences (join (String "_" t) segs) ":tbl" = 0.
Proof.
  intros Ht. induction 1 as [|x l Hx Hl IH]; [reflexivity|].
  destruct l as [|y l]; [exact Hx|].
  rewrite join_cons by discriminate.
  rewrite app_cons, occurrences_skip_segment by exact Hx.
  change (occurrences (String "_" (t +:+ join (String "_" t) (y :: l))) ":tbl")
    with (occurrences (t +:+ join (String "_" t) (y :: l)) ":tbl").
  rewrite occurrences_skip_new by exact Ht. exact IH.
Qed.

End Placeholder.

(** ** The digest and the table name *)

Section Naming.
Context {C : Config}.

Lemma hex_digit_is_hex (x : Z) : is_hex_char (Sha256.hex_digit x) = true.
Proof.
  unfold Sha256.hex_digit. generalize (Z.to_nat (x mod 16)). intros n.
  do 17 (try (destruct n as [|n]; [reflexivity|])). reflexivity.
Qed.

Lemma hex8_is_hex (x : Z) (rest : string) :
  all_chars is_hex_char (Sha256.hex8 x rest) = all_chars is_hex_char rest.
Proof.
  unfold Sha256.hex8. cbn [all_chars]. rewrite !hex_digit_is_hex. reflexivity.
Qed.

(** [hexdigest()] is 64 lower-case hexadecimal digits: the full 256 bits. *)
Lemma hexdigest_full_width (m : string) :
  String.length (Sha256.sha256_hexdigest m) = 64
  /\ all_chars is_hex_char (Sha256.sha256_hexdigest m) = true.
Proof.
  unfold Sha256.sha256_hexdigest, Sha256.hex_of_state. split.
  - reflexivity.
  - rewrite !hex8_is_hex. reflexivity.
Qed.

Lemma hex_is_ident (c : ascii) : is_hex_char c = true -> is_ident_char c = true.
Proof.
  unfold is_hex_char, is_ident_char, is_ident_start.
  generalize (N_of_ascii c). intros n.
  rewrite !orb_true_iff, !andb_true_iff, !N.leb_le, N.eqb_eq. lia.
Qed.

Lemma user_table_shape (chat_id : Z) :
  user_table chat_id
  = String "_" ("user_data_" +:+ Sha256.sha256_hexdigest (str_int chat_id +:+ "_" +:+ SALT)).
Proof. reflexivity. Qed.

(** The table name is a valid bare identifier of the engine. *)
Lemma user_table_identifier (chat_id : Z) : is_identifier (user_table chat_id) = true.
Proof.
  rewrite user_table_shape. cbn [is_identifier]. rewrite all_chars_app.
  destruct (hexdigest_full_width (str_int chat_id +:+ "_" +:+ SALT)) as [_ Hh].
  rewrite (all_chars_impl _ _ _ hex_is_ident Hh). reflexivity.
Qed.

Lemma user_table_no_colon (chat_id : Z) :
  has_char ":" ("user_data_" +:+ Sha256.sha256_hexdigest (str_int chat_id +:+ "_" +:+ SALT)) = false.
Proof.
  apply (all_chars_has_char is_ident_char); [reflexivity|].
  rewrite all_chars_app.
  destruct (hexdigest_full_width (str_int chat_id +:+ "_" +:+ SALT)) as [_ Hh].
  rewrite (all_chars_impl _ _ _ hex_is_ident Hh). reflexivity.
Qed.

(** The text that is hashed determines the tenant. *)
Lemma preimage_inj (a b : Z) :
  str_int a +:+ "_" +:+ SALT = str_int b +:+ "_" +:+ SALT -> a = b.
Proof.
  intros H%app_inv_tail_s. unfold str_int in H. apply (inj pretty) in H. exact H.
Qed.

End Naming.

(** ** The executable engine satisfies the engine laws *)

Section MiniFacts.

Lemma ident_start_char (c : ascii) : is_ident_start c = true -> is_ident_char c = true.
Proof. unfold is_ident_char. intros ->. reflexivity. Qed.

Lemma identifier_no_space (t : string) : is_identifier t = true -> has_char " " t = false.
Proof.
  destruct t as [|c t]; [discriminate|]. cbn [is_identifier].
  rewrite andb_true_iff. intros [Hc Ht].
  apply (all_chars_has_char is_ident_char); [reflexivity|].
  cbn [all_chars]. rewrite (ident_start_char _ Hc), Ht. reflexivity.
Qed.

(** A text without the first character of the separator is one segment. *)
Lemma split_scan_absent (c0 : ascii) (sep t : string) :
  has_char c0 t = false -> split_scan (String c0 sep) 0 t = [t].
Proof.
  induction t as [|c t IH]; [reflexivity|]. cbn [has_char].
  rewrite orb_false_iff. intros [Hc Ht].
  cbn [split_scan startswith]. rewrite Hc, (IH Ht). reflexivity.
Qed.

Lemma mini_run_select (t : string) (db : database) :
  is_identifier t = true ->
  Mini.run ("SELECT * FROM " +:+ t) db
  = match db !! t with
    | Some df => (inr (Some df), db)
    | None => (inl ("no such table: " +:+ t), db)
    end.
Proof.
  intros Ht. unfold Mini.run, Mini.SELECT_FROM.
  rewrite startswith_app.
  change 14 with (String.length "SELECT * FROM "). rewrite string_drop_app.
  unfold Mini.UNION_ALL. rewrite split_scan_absent by (apply identifier_no_space, Ht).
  cbn [Mini.lookup_tables]. unfold Mini.lookup_table. rewrite Ht.
  destruct (db !! t) as [df|]; reflexivity.
Qed.

Lemma mini_select_all_is_local : select_all_is_local Mini.engine.
Proof.
  intros t ps db1 db2 Ht Hdb. cbn [read_sql Mini.engine]. unfold Mini.mini_read_sql.
  rewrite !(mini_run_select _ _ Ht), Hdb. destruct (db2 !! t); reflexivity.
Qed.

Lemma mini_append_is_local : append_is_local Mini.engine.
Proof.
  intros df t db t' Hne. cbn [to_sql Mini.engine]. unfold Mini.mini_to_sql.
  destruct (storable df && is_identifier t); [|reflexivity].
  destruct (db !! t) as [old|] eqn:Hdb; [destruct (bool_decide _)|]; cbn [snd];
    try reflexivity; apply lookup_insert_ne; congruence.
Qed.

(** The executable engine stores a storable frame in an absent table and
    [SELECT * FROM t] returns a stored table as it is. *)
Lemma mini_to_sql_fresh (df : DataFrame) (t : string) (db : database) :
  storable df = true -> is_identifier t = true -> db !! t = None ->
  to_sql (Engine := Mini.engine) df t db = (inr tt, <[t := df]> db).
Proof.
  intros Hdf Ht Hdb. cbn [to_sql Mini.engine]. unfold Mini.mini_to_sql.
  rewrite Hdf, Ht, Hdb. reflexivity.
Qed.

Lemma mini_select_all_table (t : string) (ps : params_t) (db : database) (df : DataFrame) :
  is_identifier t = true -> db !! t = Some df ->
  read_sql (Engine := Mini.engine) ("SELECT * FROM " +:+ t) ps db = (inr df, db).
Proof.
  intros Ht Hdb. cbn [read_sql Mini.engine]. unfold Mini.mini_read_sql.
  rewrite (mini_run_select _ _ Ht), Hdb. reflexivity.
Qed.

End MiniFacts.

(** ** The gateway *)

Section Gateway.
Context {E : Engine} {C : Config}.

(** [query] is the statement followed by the error policy, which leaves
    the world as the statement left it. *)
Lemma query_eq (self : DB) (q : string) (cid : option Z) (ps : option params_t)
    (safe roe : bool) (w : world) :
  query self q cid ps safe roe w
  = match run_statement self safe (scope q cid) (default ∅ ps) w with
    | (inr r, w') => (inr r, w')
    | (inl e, w') =>
        if roe then (inl e, w')
        else if String.eqb (exn_str e) SENTINEL then (inr NoneVal, w')
             else (inr (Frame (error_frame (exn_str e))), w')
    end.
Proof.
  unfold query, try_except.
  destruct (run_statement _ _ _ _ w) as [[e|r] w']; [|reflexivity].
  destruct roe; [reflexivity|]. destruct (String.eqb _ _); reflexivity.
Qed.

Lemma query_world (self : DB) (q : string) (cid : option Z) (ps : option params_t)
    (safe roe : bool) (w : world) :
  (query self q cid ps safe roe w).2
  = (run_statement self safe (scope q cid) (default ∅ ps) w).2.
Proof.
  rewrite query_eq.
  destruct (run_statement _ _ _ _ w) as [[e|r] w']; [|reflexivity].
  destruct roe; [reflexivity|]. destruct (String.eqb _ _); reflexivity.
Qed.

(** With [raise_on_error=False], [query] returns. *)
Lemma query_no_raise (self : DB) (q : string) (cid : option Z) (ps : option params_t)
    (safe : bool) (w : world) :
  exists r, (query self q cid ps safe false w).1 = inr r.
Proof.
  rewrite query_eq.
  destruct (run_statement _ _ _ _ w) as [[e|r] w']; [|eauto].
  destruct (String.eqb _ _); eauto.
Qed.

Lemma conn_call_journal {A} (h : nat) (c : call)
    (run : database -> (exn + A) * database) (w : world) (path : string) :
  handles w !! h = Some (path, true) ->
  journal (conn_call h c run w).2 = journal w ++ [c].
Proof.
  intros H. unfold conn_call. rewrite H. destruct (run _). reflexivity.
Qed.

(** On an open connection the statement reaches the engine with the text
    that [run_statement] was given. *)
Lemma run_statement_journal (self : DB) (safe : bool) (q : string) (ps : params_t)
    (w : world) (path : string) :
  handles w !! _db_conn self = Some (path, true) ->
  journal (run_statement self safe q ps w).2 = journal w ++ [stmt_call safe q].
Proof.
  intros H. unfold run_statement.
  destruct (negb safe); apply (conn_call_journal _ _ _ _ _ H).
Qed.

Lemma scope_nonzero (q : string) (id : Z) :
  id <> 0%Z -> scope q (Some id) = replace_scan ":tbl" (user_table id) 0 q.
Proof.
  intros H. unfold scope, truthy. destruct (Z.eqb_spec id 0); [contradiction|].
  reflexivity.
Qed.

(** C4, at the tenant identifier 0: the identifier is supplied, yet [query]
    treats it as absent. The text is not rewritten, the call is the one
    without [chat_id], and the placeholder of [SELECT * FROM :tbl] is still
    in the statement. *)
Theorem query_tenant_zero_not_scoped (self : DB) (q : string)
    (ps : option params_t) (safe roe : bool) (w : world) :
  scope q (Some 0%Z) = q
  /\ query self q (Some 0%Z) ps safe roe w = query self q None ps safe roe w
  /\ occurrences (scope "SELECT * FROM :tbl" (Some 0%Z)) ":tbl" = 1.
Proof. repeat split. Qed.

(** For every other identifier the statement that reaches the engine is the
    rewritten text. *)
Lemma query_scopes_nonzero (self : DB) (q : string) (id : Z)
    (ps : option params_t) (safe roe : bool) (w : world) (path : string) :
  id <> 0%Z ->
  handles w !! _db_conn self = Some (path, true) ->
  journal (query self q (Some id) ps safe roe w).2
  = journal w ++ [stmt_call safe (replace q ":tbl" (user_table id))].
Proof.
  intros Hid Hopen. rewrite query_world, (run_statement_journal _ _ _ _ _ _ Hopen).
  rewrite (scope_nonzero _ _ Hid). reflexivity.
Qed.

(** C5: with a tenant identifier that is accepted for scoping (not 0), the
    statement that reaches the engine has every placeholder replaced: the
    query text is [n+1] placeholder-free segments joined by [":tbl"], where
    [n] is the number of placeholders in it, the statement is the same
    segments joined by the tenant's table name, and no placeholder is left
    in it. *)
Theorem query_replaces_every_placeholder (self : DB) (q : string) (id : Z)
    (ps : option params_t) (safe roe : bool) (w : world) (path : string) :
  id <> 0%Z ->
  handles w !! _db_conn self = Some (path, true) ->
  exists sent segs,
    journal (query self q (Some id) ps safe roe w).2 = journal w ++ [stmt_call safe sent]
    /\ q = join ":tbl" segs
    /\ sent = join (user_table id) segs
    /\ length segs = S (occurrences q ":tbl")
    /\ Forall (fun seg => occurrences seg ":tbl" = 0) segs
    /\ occurrences sent ":tbl" = 0.
Proof.
  intros Hid Hopen.
  exists (replace q ":tbl" (user_table id)), (split_scan ":tbl" 0 q).
  assert (Hfree : Forall (fun seg => occurrences seg ":tbl" = 0) (split_scan ":tbl" 0 q))
    by (apply split_scan_free; discriminate).
  assert (Hsent : replace q ":tbl" (user_table id)
                  = join (user_table id) (split_scan ":tbl" 0 q))
    by apply replace_scan_join.
  repeat split.
  - apply (query_scopes_nonzero _ _ _ _ _ _ _ _ Hid Hopen).
  - symmetry. apply (join_split_scan ":tbl" 0 q). discriminate.
  - exact Hsent.
  - apply split_scan_count.
  - exact Hfree.
  - rewrite Hsent, user_table_shape.
    apply occurrences_join_new; [apply user_table_no_colon | exact Hfree].
Qed.

(** C6, as the code has it: when the statement faults with a description
    other than the sentinel text, [query] raises exactly when
    [raise_on_error] is true, and then raises that fault; otherwise it
    returns the frame of one row and the one column [Exception_text] whose
    value is the description [str(e)] of the fault, empty when the
    description is. *)
Theorem query_error_policy (self : DB) (q : string) (cid : option Z)
    (ps : option params_t) (safe roe : bool) (w w' : world) (e : exn) :
  run_statement self safe (scope q cid) (default ∅ ps) w = (inl e, w') ->
  exn_str e <> SENTINEL ->
  ((exists e0, (query self q cid ps safe roe w).1 = inl e0) <-> roe = true)
  /\ (roe = true -> query self q cid ps safe roe w = (inl e, w'))
  /\ (roe = false ->
      query self q cid ps safe roe w
      = (inr (Frame (Frame_ ["Exception_text"] [[VText (exn_str e)]])), w')).
Proof.
  intros Hrun Hne. rewrite query_eq, Hrun.
  apply String.eqb_neq in Hne. rewrite Hne.
  destruct roe; repeat split; try congruence; try discriminate.
  - eauto.
  - intros [e0 H]. discriminate.
Qed.

(** C7: when the statement faults with exactly the sentinel description and
    [raise_on_error] is false, [query] returns [None] and does not raise. *)
Theorem query_sentinel_is_none (self : DB) (q : string) (cid : option Z)
    (ps : option params_t) (safe : bool) (w w' : world) (e : exn) :
  run_statement self safe (scope q cid) (default ∅ ps) w = (inl e, w') ->
  exn_str e = SENTINEL ->
  query self q cid ps safe false w = (inr NoneVal, w').
Proof.
  intros Hrun He. rewrite query_eq, Hrun, He, String.eqb_refl. reflexivity.
Qed.

End Gateway.

(** ** Opening and closing the database *)

Section Lifecycle.
Context {E : Engine} {C : Config}.

Lemma conn_call_files {A} (h : nat) (c : call)
    (run : database -> (exn + A) * database) (w : world) (p : string) :
  is_Some (files w !! p) -> is_Some (files (conn_call h c run w).2 !! p).
Proof.
  intros H. unfold conn_call.
  destruct (handles w !! h) as [[path [|]]|]; try exact H.
  destruct (run _) as [r db']. cbn [snd files].
  rewrite lookup_insert_is_Some. destruct (decide (path = p)); auto.
Qed.

Lemma run_statement_files (self : DB) (safe : bool) (q : string) (ps : params_t)
    (w : world) (p : string) :
  is_Some (files w !! p) -> is_Some (files (run_statement self safe q ps w).2 !! p).
Proof. intros H. unfold run_statement. destruct (negb safe); apply conn_call_files, H. Qed.

(** [create_tables] returns, whatever the statement does. *)
Lemma create_tables_returns (self : DB) (w : world) :
  create_tables self w
  = (inr tt, (run_statement self false CREATE_DUMMY ∅ w).2).
Proof.
  unfold create_tables, bind. rewrite <- (query_world self CREATE_DUMMY None None false false w).
  destruct (query_no_raise self CREATE_DUMMY None None false w) as [r Hr].
  destruct (query _ _ _ _ _ _ w) as [[e|r'] w']; [discriminate | reflexivity].
Qed.

(** Closing keeps every database file. *)
Lemma close_connection_files (self : DB) (w : world) (p : string) :
  is_Some (files w !! p) -> is_Some (files (close_connection self w).2 !! p).
Proof.
  intros H. unfold close_connection, bind, try_except, ret.
  pose proof (run_statement_files self false (scope "COMMIT" None) ∅ w p H) as Hq.
  rewrite <- (query_world self "COMMIT" None None false true w) in Hq.
  destruct (query _ _ _ _ _ _ w) as [[e|r] w']; exact Hq.
Qed.

(** After [sqlite3.connect] the file is there. *)
Lemma connect_creates (fs : gmap string database) (path : string) :
  is_Some (match fs !! path with
           | Some _ => fs
           | None => <[path := ∅]> fs
           end !! path).
Proof.
  destruct (fs !! path) eqn:Hf; [rewrite Hf; eauto|].
  apply lookup_insert_is_Some. auto.
Qed.

(** The constructor on a path that exists: the connection is opened and no
    statement is run. *)
Lemma post_init_existing (path : string) (w : world) :
  is_Some (files w !! path) -> can_open path = true ->
  exists self w', post_init path w = (inr self, w')
                  /\ journal w' = journal w
                  /\ is_Some (files w' !! path).
Proof.
  intros Hf Ho. unfold post_init, bind, path_exists, connect. rewrite Ho.
  rewrite (bool_decide_eq_true_2 _ Hf). cbn.
  eexists _, _. split; [reflexivity|]. split; [reflexivity|].
  apply connect_creates.
Qed.

(** The constructor fails only where [sqlite3.connect] fails. *)
Lemma post_init_raises (path : string) (w w' : world) (e : exn) :
  post_init path w = (inl e, w') -> connect path w = (inl e, w').
Proof.
  unfold post_init, bind, path_exists. cbn beta iota.
  destruct (connect path w) as [[e0|h] w0]; [intros [= -> ->]; reflexivity|].
  destruct (negb _).
  - rewrite create_tables_returns. cbn. discriminate.
  - cbn. discriminate.
Qed.

Lemma post_init_connected (path : string) (w w' : world) (h : nat) :
  connect path w = (inr h, w') -> exists w'', post_init path w = (inr (DB_ path h), w'').
Proof.
  intros Hc. unfold post_init, bind, path_exists. cbn beta iota. rewrite Hc.
  destruct (negb _).
  - rewrite create_tables_returns. cbn. eauto.
  - cbn. eauto.
Qed.

(** C8: a successful open runs the bootstrap statement exactly when the path
    did not exist before, and then once; opening the same path again, right
    away or after the connection has been closed, succeeds and runs no
    statement at all, so the marker table is never created twice. *)
Theorem bootstrap_runs_once (path : string) (w w1 : world) (self : DB) :
  post_init path w = (inr self, w1) ->
  journal w1
  = journal w ++
    (if bool_decide (is_Some (files w !! path))
        || bool_decide (is_Some (tmpfiles w !! path))
     then [] else [ReadSql CREATE_DUMMY])
  /\ forall w2, w2 = w1 \/ w2 = (close_connection self w1).2 ->
       exists self' w3, post_init path w2 = (inr self', w3) /\ journal w3 = journal w2.
Proof.
  intros H.
  assert (Ho : can_open path = true).
  { destruct (can_open path) eqn:Ho; [reflexivity|].
    unfold post_init, bind, path_exists, connect in H. rewrite Ho in H. discriminate. }
  assert (H1 : journal w1
               = journal w ++
                 (if bool_decide (is_Some (files w !! path))
                     || bool_decide (is_Some (tmpfiles w !! path))
                  then [] else [ReadSql CREATE_DUMMY])
               /\ is_Some (files w1 !! path)).
  { unfold post_init, bind, path_exists, connect in H. rewrite Ho in H.
    destruct (bool_decide (is_Some (files w !! path))
              || bool_decide (is_Some (tmpfiles w !! path))); cbn [negb] in H.
    - cbn in H. injection H as _ <-. cbn [journal files]. rewrite app_nil_r. split; [reflexivity|].
      apply connect_creates.
    - rewrite create_tables_returns in H. unfold ret in H. injection H as _ <-.
      split.
      + erewrite run_statement_journal; [reflexivity|].
        cbn [_db_conn handles]. apply list_lookup_middle. reflexivity.
      + apply run_statement_files. apply connect_creates. }
  destruct H1 as [Hj Hf]. split; [exact Hj|].
  intros w2 [-> | ->].
  - destruct (post_init_existing path w1 Hf Ho) as (s' & w3 & ? & ? & _). eauto.
  - destruct (post_init_existing path _ (close_connection_files self w1 path Hf) Ho)
      as (s' & w3 & ? & ? & _). eauto.
Qed.

(** C10, as the code has it: [create_tables] never raises; a fault of the
    CREATE statement becomes the value that [query] returns with
    [raise_on_error=False], which is [None] for the sentinel description
    and the one-row error frame for any other, and that value is dropped;
    the constructor raises only the fault of [sqlite3.connect], and returns
    whenever the connection opens. *)
Theorem bootstrap_faults_swallowed (self : DB) (path : string) (w : world) :
  (exists w', create_tables self w = (inr tt, w'))
  /\ (forall e w', run_statement self false CREATE_DUMMY ∅ w = (inl e, w') ->
        query self CREATE_DUMMY None None false false w
        = (inr (if String.eqb (exn_str e) SENTINEL then NoneVal
                else Frame (error_frame (exn_str e))), w'))
  /\ (forall e w', post_init path w = (inl e, w') -> connect path w = (inl e, w'))
  /\ (forall h w', connect path w = (inr h, w') ->
        exists w'', post_init path w = (inr (DB_ path h), w'')).
Proof.
  split; [rewrite create_tables_returns; eauto|].
  split.
  - intros e w' Hrun. rewrite query_eq. cbn [scope default]. rewrite Hrun.
    destruct (String.eqb _ _); reflexivity.
  - split; [intros e w'; apply post_init_raises | intros h w'; apply post_init_connected].
Qed.

End Lifecycle.

(** ** The upload handler *)

Section Upload.
Context {E : Engine} {C : Config}.

Lemma occurrences_dot_free (seg : string) :
  occurrences seg "." = 0 -> has_char "." seg = false.
Proof.
  induction seg as [|c seg IH]; [reflexivity|].
  cbn [occurrences startswith has_char].
  destruct (Ascii.eqb c "."); [discriminate|]. exact IH.
Qed.

Lemma join_snoc (sep : string) (l : list string) (x : string) :
  l <> [] -> join sep (l ++ [x]) = join sep l +:+ sep +:+ x.
Proof.
  induction l as [|a l IH]; [congruence|]. intros _.
  destruct l as [|b l]; [reflexivity|].
  change (join sep ((a :: b :: l) ++ [x]))
    with (a +:+ sep +:+ join sep ((b :: l) ++ [x])).
  rewrite IH by discriminate.
  change (join sep (a :: b :: l)) with (a +:+ sep +:+ join sep (b :: l)).
  rewrite !app_assoc_s. reflexivity.
Qed.

(** [fn.split(".")[-1]] is the text after the last dot of [fn], and all of
    [fn] when it has no dot. *)
Lemma last_split_dot (fn : string) :
  has_char "." (last_item (split_scan "." 0 fn)) = false
  /\ (fn = last_item (split_scan "." 0 fn)
      \/ exists pre, fn = pre +:+ "." +:+ last_item (split_scan "." 0 fn)).
Proof.
  pose proof (join_split_scan "." 0 fn ltac:(discriminate)) as Hj.
  pose proof (split_scan_free "." 0 fn ltac:(discriminate)) as Hf.
  cbn [string_drop] in Hj.
  destruct (exists_last (split_scan_nonempty "." 0 fn)) as (l & ext & Hl).
  rewrite Hl in Hj. rewrite Hl in Hf. rewrite Hl.
  unfold last_item. rewrite last_last.
  apply Forall_app in Hf as [_ Hf]. apply Forall_inv in Hf.
  split; [apply occurrences_dot_free, Hf|].
  destruct l as [|a l]; [left; symmetry; exact Hj|].
  right. exists (join "." (a :: l)). rewrite <- Hj. apply join_snoc. discriminate.
Qed.

(** C9: a file name that ends in none of [.csv], [.xlsx], [.xls] makes
    [upload_csv] raise [TypeError] with the message
    [Unsupported file type: ] followed by the text after the last dot of the
    name (the whole name when it has no dot), and the world is as before:
    no temporary file, no download, no connection, no statement, no reply. *)
Theorem upload_rejects_unknown_extension (update : Update) (w : world) :
  endswith (file_name update) ".csv" = false ->
  endswith (file_name update) ".xlsx" = false ->
  endswith (file_name update) ".xls" = false ->
  exists ext,
    upload_csv update w = (inl (Exn "TypeError" ("Unsupported file type: " +:+ ext)), w)
    /\ has_char "." ext = false
    /\ (file_name update = ext \/ exists pre, file_name update = pre +:+ "." +:+ ext).
Proof.
  intros Hcsv Hxlsx Hxls.
  exists (last_item (split_scan "." 0 (file_name update))).
  split; [|apply last_split_dot].
  unfold upload_csv. rewrite Hcsv, Hxlsx, Hxls.
  rewrite !insert_insert_eq, lookup_insert_ne by discriminate.
  rewrite lookup_empty. reflexivity.
Qed.

End Upload.

(** ** The name carries the whole digest *)

Section DigestFacts.
Context {C : Config}.

Lemma hex_digit_inj (u v : Z) :
  Sha256.hex_digit u = Sha256.hex_digit v -> (u mod 16 = v mod 16)%Z.
Proof.
  unfold Sha256.hex_digit. intros H.
  pose proof (Z.mod_pos_bound u 16 ltac:(lia)) as Hu.
  pose proof (Z.mod_pos_bound v 16 ltac:(lia)) as Hv.
  apply Z2Nat.inj; [lia | lia |].
  assert (Hn : Z.to_nat (u mod 16) < 16) by lia.
  assert (Hm : Z.to_nat (v mod 16) < 16) by lia.
  revert H Hn Hm. generalize (Z.to_nat (u mod 16)) (Z.to_nat (v mod 16)).
  intros n m H Hn Hm.
  do 16 (destruct n as [|n];
         [do 16 (destruct m as [|m]; [first [reflexivity | discriminate H]|]);
          exfalso; lia|]).
  exfalso; lia.
Qed.

(** Two numbers with the same hexadecimal digit at [k] and the same digits
    above it agree from [k] upwards. *)
Lemma nibble_step (x y k : Z) :
  (0 < k -> (x / k) mod 16 = (y / k) mod 16 -> x / (k * 16) = y / (k * 16) ->
   x / k = y / k)%Z.
Proof.
  intros Hk Hm Hd. rewrite <- !Z.div_div in Hd by lia.
  rewrite (Z.div_mod (x / k) 16), (Z.div_mod (y / k) 16) by lia. congruence.
Qed.

(** Eight hexadecimal digits determine a 32-bit word. *)
Lemma hex8_inj (x y : Z) (r r' : string) :
  (0 <= x < 2 ^ 32)%Z -> (0 <= y < 2 ^ 32)%Z ->
  Sha256.hex8 x r = Sha256.hex8 y r' -> x = y /\ r = r'.
Proof.
  intros Hx Hy H. unfold Sha256.hex8 in H.
  injection H as H7 H6 H5 H4 H3 H2 H1 H0 Hr.
  apply hex_digit_inj in H7, H6, H5, H4, H3, H2, H1, H0.
  split; [|exact Hr].
  change (2 ^ 32)%Z with 4294967296%Z in Hx, Hy.
  assert (E8 : (x / 4294967296 = y / 4294967296)%Z)
    by (rewrite !Z.div_small by lia; reflexivity).
  pose proof (nibble_step x y 0x10000000 ltac:(lia) H7 E8) as E7.
  pose proof (nibble_step x y 0x1000000 ltac:(lia) H6 E7) as E6.
  pose proof (nibble_step x y 0x100000 ltac:(lia) H5 E6) as E5.
  pose proof (nibble_step x y 0x10000 ltac:(lia) H4 E5) as E4.
  pose proof (nibble_step x y 0x1000 ltac:(lia) H3 E4) as E3.
  pose proof (nibble_step x y 0x100 ltac:(lia) H2 E3) as E2.
  pose proof (nibble_step x y 0x10 ltac:(lia) H1 E2) as E1.
  rewrite <- (Z.div_1_r x), <- (Z.div_1_r y) in H0.
  pose proof (nibble_step x y 1 ltac:(lia) H0 E1) as E0.
  rewrite !Z.div_1_r in E0. exact E0.
Qed.

Lemma hex_of_state_inj (s t : Sha256.state) :
  word_state s -> word_state t ->
  Sha256.hex_of_state s = Sha256.hex_of_state t -> s = t.
Proof.
  destruct s as [a1 b1 c1 d1 e1 f1 g1 h1], t as [a2 b2 c2 d2 e2 f2 g2 h2].
  unfold word_state, Sha256.hex_of_state. cbn [Sha256.sa Sha256.sb Sha256.sc Sha256.sd
    Sha256.se Sha256.sf Sha256.sg Sha256.sh].
  intros (Ha1 & Hb1 & Hc1 & Hd1 & He1 & Hf1 & Hg1 & Hh1)
         (Ha2 & Hb2 & Hc2 & Hd2 & He2 & Hf2 & Hg2 & Hh2) H.
  apply hex8_inj in H as [-> H]; [|assumption..].
  apply hex8_inj in H as [-> H]; [|assumption..].
  apply hex8_inj in H as [-> H]; [|assumption..].
  apply hex8_inj in H as [-> H]; [|assumption..].
  apply hex8_inj in H as [-> H]; [|assumption..].
  apply hex8_inj in H as [-> H]; [|assumption..].
  apply hex8_inj in H as [-> H]; [|assumption..].
  apply hex8_inj in H as [-> H]; [|assumption..].
  reflexivity.
Qed.

Lemma w32_range (x : Z) : (0 <= Sha256.w32 x < 2 ^ 32)%Z.
Proof. unfold Sha256.w32. apply Z.mod_pos_bound. reflexivity. Qed.

Lemma compress_word_state (h : Sha256.state) (block : list Z) :
  word_state (Sha256.compress h block).
Proof.
  unfold word_state, Sha256.compress, Sha256.add32.
  cbn [Sha256.sa Sha256.sb Sha256.sc Sha256.sd Sha256.se Sha256.sf Sha256.sg Sha256.sh].
  repeat split; apply w32_range.
Qed.

Lemma digest_word_state (msg : list Z) : word_state (Sha256.digest msg).
Proof.
  unfold Sha256.digest.
  generalize (Sha256.chunks 64 (length (Sha256.pad msg) / 64) (Sha256.pad msg)).
  assert (H0 : word_state Sha256.H0) by (unfold word_state; cbn; lia).
  revert H0. generalize Sha256.H0. intros h Hh blocks. revert h Hh.
  induction blocks as [|blk blocks IH]; intros h Hh; [exact Hh|].
  cbn [fold_left]. apply IH, compress_word_state.
Qed.

Lemma bytes_of_string_inj (s t : string) :
  Sha256.bytes_of_string s = Sha256.bytes_of_string t -> s = t.
Proof.
  unfold Sha256.bytes_of_string. intros H.
  rewrite <- (string_of_list_ascii_of_string s), <- (string_of_list_ascii_of_string t).
  f_equal. revert H.
  generalize (list_ascii_of_string s) (list_ascii_of_string t).
  intros l1. induction l1 as [|c1 l1 IH]; intros [|c2 l2] H; try discriminate.
  - reflexivity.
  - cbn [map] in H. injection H as Hc Hl. f_equal; [|apply IH, Hl].
    apply N2Z.inj in Hc.
    rewrite <- (ascii_N_embedding c1), <- (ascii_N_embedding c2), Hc. reflexivity.
Qed.

(** Distinct identifiers are hashed as distinct byte strings. *)
Lemma hashed_text_inj (a b : Z) : hashed_text a = hashed_text b -> a = b.
Proof. intros H%bytes_of_string_inj. apply preimage_inj, H. Qed.

(** Two table names are equal exactly when the two digests are. *)
Lemma user_table_eq_iff (a b : Z) :
  user_table a = user_table b
  <-> Sha256.digest (hashed_text a) = Sha256.digest (hashed_text b).
Proof.
  unfold user_table, Sha256.sha256_hexdigest, hashed_text. split.
  - intros H. apply (inj (String.app "_user_data_")) in H.
    apply hex_of_state_inj in H; [exact H | apply digest_word_state..].
  - intros ->. reflexivity.
Qed.

End DigestFacts.

(** ** Tenants *)

Section Tenants.
Context {E : Engine} {C : Config}.


Lemma upload_df_handles (self : DB) (df : DataFrame) (id : Z) (w : world) :
  handles (upload_df self df id w).2 = handles w.
Proof.
  unfold upload_df, conn_call.
  destruct (handles w !! _db_conn self) as [[path [|]]|]; try reflexivity.
  destruct (to_sql _ _ _). reflexivity.
Qed.

End Tenants.

(** ** Isolation and round trip *)

Section Isolation.
Context {E : Engine} {C : Config}.

Lemma scope_select_all (id : Z) :
  id <> 0%Z -> scope "SELECT * FROM :tbl" (Some id) = "SELECT * FROM " +:+ user_table id.
Proof.
  intros Hid. rewrite (scope_nonzero _ _ Hid). generalize (user_table id). intros t.
  cbn [replace_scan startswith Ascii.eqb Bool.eqb String.length Nat.sub].
  rewrite app_empty_r. reflexivity.
Qed.

(** [SELECT * FROM :tbl], scoped, reads the tenant's table only. *)
Lemma select_all_reads_only (id : Z) (ps : params_t) :
  select_all_is_local E -> id <> 0%Z ->
  reads_only (scope "SELECT * FROM :tbl" (Some id)) ps (user_table id).
Proof.
  intros Hlocal Hid db1 db2 H. rewrite (scope_select_all _ Hid).
  apply Hlocal; [apply user_table_identifier | exact H].
Qed.

(** The outcome of a statement that reads only table [t] is the same after
    an upload into another table. *)
Lemma run_statement_isolated (self : DB) (df : DataFrame) (b : Z) (sql t : string)
    (ps : params_t) (w : world) :
  append_is_local E -> t <> user_table b -> reads_only sql ps t ->
  (run_statement self false sql ps (upload_df self df b w).2).1
  = (run_statement self false sql ps w).1.
Proof.
  intros Happend Hne Hro. unfold run_statement, upload_df, conn_call. cbn [negb].
  destruct (handles w !! _db_conn self) as [[path [|]]|] eqn:Hh; cbn [snd];
    rewrite ?Hh; try reflexivity.
  pose proof (Happend df (user_table b) (default ∅ (files w !! path)) t Hne) as Hfr.
  destruct (to_sql df (user_table b) (default ∅ (files w !! path))) as [r db'].
  cbn [snd handles files] in Hfr |- *. rewrite Hh, lookup_insert_eq.
  change (default ∅ (Some db')) with db'.
  specialize (Hro db' (default ∅ (files w !! path)) Hfr).
  destruct (read_sql sql ps db') as [r1 d1].
  destruct (read_sql sql ps (default ∅ (files w !! path))) as [r2 d2].
  cbn [fst] in Hro |- *. rewrite Hro. reflexivity.
Qed.

Lemma query_outcome (self : DB) (q : string) (cid : option Z) (ps : option params_t)
    (safe roe : bool) (w1 w2 : world) :
  (run_statement self safe (scope q cid) (default ∅ ps) w1).1
  = (run_statement self safe (scope q cid) (default ∅ ps) w2).1 ->
  (query self q cid ps safe roe w1).1 = (query self q cid ps safe roe w2).1.
Proof.
  intros H. rewrite !query_eq.
  destruct (run_statement _ _ _ _ w1) as [[e1|r1] w1'],
           (run_statement _ _ _ _ w2) as [[e2|r2] w2']; cbn [fst] in H;
    try discriminate; injection H as ->; [|reflexivity].
  destruct roe; [reflexivity|]. destruct (String.eqb _ _); reflexivity.
Qed.

(** C1, as the code has it: for two distinct tenants [a] and [b], a read
    query of [a] whose scoped text reads only the table of [a] has the same
    outcome whatever is uploaded for [b], unless the two tenants share a
    table name, which takes two distinct byte strings with the same SHA-256
    digest. The scoped [SELECT * FROM :tbl] is such a query
    ([select_all_reads_only]); a text that names another table is run as it
    is. Of the engine the proof needs only that [to_sql] touches the table
    it is given and no other. *)
Theorem tenant_isolation (self : DB) (a b : Z) (df : DataFrame) (q : string)
    (ps : option params_t) (roe : bool) (w : world) :
  append_is_local E ->
  a <> b ->
  reads_only (scope q (Some a)) (default ∅ ps) (user_table a) ->
  (query self q (Some a) ps false roe (upload_df self df b w).2).1
  = (query self q (Some a) ps false roe w).1
  \/ (hashed_text a <> hashed_text b
      /\ Sha256.digest (hashed_text a) = Sha256.digest (hashed_text b)).
Proof.
  intros Happend Hab Hro.
  destruct (decide (user_table a = user_table b)) as [Heq|Hne].
  - right. split; [intros H; apply Hab, hashed_text_inj, H|].
    apply user_table_eq_iff, Heq.
  - left. apply query_outcome.
    apply (run_statement_isolated _ _ _ _ (user_table a)); assumption.
Qed.

(** The round trip for every tenant identifier other than 0, on an engine
    that stores the two rows in an absent table and returns them for
    [SELECT * FROM] that table: [SELECT * FROM :tbl] returns the two rows in
    the order of the upload. *)
Lemma round_trip_nonzero (self : DB) (t : Z) (roe : bool) (w : world) (path : string) :
  (forall n (db : database), is_identifier n = true -> db !! n = None ->
     to_sql people n db = (inr tt, <[n := people]> db)) ->
  (forall n (ps : params_t) (db : database),
     is_identifier n = true -> db !! n = Some people ->
     read_sql ("SELECT * FROM " +:+ n) ps db = (inr people, db)) ->
  t <> 0%Z ->
  handles w !! _db_conn self = Some (path, true) ->
  default ∅ (files w !! path) !! user_table t = None ->
  exists w1 w2,
    upload_df self people t w = (inr tt, w1)
    /\ query self "SELECT * FROM :tbl" (Some t) None false roe w1
       = (inr (Frame people), w2).
Proof.
  intros Hstore Hselect Ht Hh Hfresh. unfold upload_df, conn_call. rewrite Hh.
  rewrite (Hstore _ _ (user_table_identifier t) Hfresh).
  eexists _, _. split; [reflexivity|].
  rewrite query_eq, (scope_select_all _ Ht). unfold run_statement, conn_call.
  cbn [negb handles files]. rewrite Hh, lookup_insert_eq.
  change (default ∅ (Some ?d)) with d.
  rewrite (Hselect _ _ _ (user_table_identifier t) (lookup_insert_eq _ _ _)).
  reflexivity.
Qed.

End Isolation.

(** ** The model on concrete inputs *)

Section Examples.
Import Demo.

Example replace_twice :
  replace "SELECT * FROM :tbl JOIN :tbl" ":tbl" "T" = "SELECT * FROM T JOIN T".
Proof. reflexivity. Qed.

Example replace_leftmost : replace "x:tbl:tbltbl" ":tbl" "T" = "xTTtbl".
Proof. reflexivity. Qed.

Example replace_empty_pattern : replace "ab" "" "-" = "-a-b-".
Proof. reflexivity. Qed.

Example split_dots : split "a.tar.gz" "." = Some ["a"; "tar"; "gz"].
Proof. reflexivity. Qed.

Example split_trailing_dot : split "a.b." "." = Some ["a"; "b"; ""].
Proof. reflexivity. Qed.

Example str_int_negative : str_int (-42) = "-42".
Proof. reflexivity. Qed.

Example round_constants :
  length Sha256.K = 64
  /\ head Sha256.K = Some 0x428a2f98%Z /\ last Sha256.K = Some 0xc67178f2%Z
  /\ Sha256.sa Sha256.H0 = 0x6a09e667%Z /\ Sha256.sh Sha256.H0 = 0x5be0cd19%Z.
Proof. repeat split. Qed.

Example sha256_abc :
  Sha256.sha256_hexdigest "abc"
  = "ba7816bf8f01cfea414140de5dae2223b00361a396177a9cb410ff61f20015ad".
Proof. vm_compute. reflexivity. Qed.

Example sha256_empty :
  Sha256.sha256_hexdigest ""
  = "e3b0c44298fc1c149afbf4c8996fb92427ae41e4649b934ca495991b7852b855".
Proof. vm_compute. reflexivity. Qed.

Example sha256_two_blocks :
  Sha256.sha256_hexdigest "abcdbcdecdefdefgefghfghighijhijkijkljklmklmnlmnomnopnopq"
  = "248d6a61d20638b8e5c026930c3e6039a33ce45964ff2167f6ecedd419db06c1".
Proof. vm_compute. reflexivity. Qed.

Example user_table_7 :
  user_table 7 = "_user_data_0d50bf2d80753658dfd6ca68ca65cd24554707fc1c4f3f5051cc2fc5fdc96193".
Proof. vm_compute. reflexivity. Qed.

Example user_table_0 :
  user_table 0 = "_user_data_43edd7151587a31500a7db3876f8dd8d006a98b0705591639fd84b86e804db7d".
Proof. vm_compute. reflexivity. Qed.

Example user_table_negative :
  user_table (-5) = "_user_data_ca6e43866d7e77e36564cb929e775a434123ee76230d30c0a3af190e64b3ee35".
Proof. vm_compute. reflexivity. Qed.

Example opened_is_open : handles opened !! 0 = Some (DB_LOCATION, true).
Proof. vm_compute. reflexivity. Qed.

(** Tenant 7, with a row of its own, is isolated from an upload of tenant 9
    for [SELECT * FROM :tbl]: the query returns that row before and after. *)
Lemma tenant_isolation_witness :
  (query gateway "SELECT * FROM :tbl" (Some 7%Z) None false true
     (upload_df gateway people 9 stocked).2).1
  = (query gateway "SELECT * FROM :tbl" (Some 7%Z) None false true stocked).1
  /\ (query gateway "SELECT * FROM :tbl" (Some 7%Z) None false true stocked).1
     = inr (Frame own).
Proof.
  destruct (tenant_isolation gateway 7 9 people "SELECT * FROM :tbl" None true stocked
              mini_append_is_local ltac:(lia)
              (select_all_reads_only 7 ∅ mini_select_all_is_local ltac:(lia)))
    as [H | [_ Hcollide]].
  - split; [exact H | vm_compute; reflexivity].
  - exfalso. vm_compute in Hcollide. discriminate Hcollide.
Defined.

(** C1 as stated fails: tenant 7 and tenant 9 are distinct, the query of
    tenant 7 contains the placeholder, and once tenant 9 has uploaded its two
    rows the query returns them after the row of tenant 7; before that
    upload it failed. *)
Lemma isolation_fails_when_query_names_other_table :
  let wA := (upload_df gateway own 7 opened).2 in
  let wB := (upload_df gateway people 9 wA).2 in
  7%Z <> 9%Z
  /\ occurrences foreign_query ":tbl" = 1
  /\ (exists e, (query gateway foreign_query (Some 7%Z) None false true wA).1 = inl e)
  /\ (query gateway foreign_query (Some 7%Z) None false true wB).1
     = inr (Frame (Frame_ ["name"; "age"]
                          [[VText "carol"; VInt 41];
                           [VText "alice"; VInt 30]; [VText "bob"; VInt 25]])).
Proof.
  split; [lia|]. split; [reflexivity|]. split.
  - eexists. vm_compute. reflexivity.
  - vm_compute. reflexivity.
Qed.

(** C2 at tenant 0: the upload stores the two rows under [user_table 0], and
    the query that follows raises since [:tbl] was not rewritten. *)
Theorem round_trip_fails_for_tenant_zero :
  let w1 := (upload_df gateway people 0 opened).2 in
  (upload_df gateway people 0 opened).1 = inr tt
  /\ (files w1 !! DB_LOCATION) ≫= (fun db => db !! user_table 0) = Some people
  /\ journal (query gateway "SELECT * FROM :tbl" (Some 0%Z) None false true w1).2
     = journal w1 ++ [ReadSql "SELECT * FROM :tbl"]
  /\ (query gateway "SELECT * FROM :tbl" (Some 0%Z) None false true w1).1
     = inl (Exn "DatabaseError"
                ("Execution failed on sql 'SELECT * FROM :tbl': near "
                 +:+ Mini.dquote +:+ ":tbl" +:+ Mini.dquote +:+ ": syntax error")).
Proof. repeat split; vm_compute; reflexivity. Qed.

Example round_trip_nonzero_on_executable_engine :
  exists w1 w2,
    upload_df gateway people 7 opened = (inr tt, w1)
    /\ query gateway "SELECT * FROM :tbl" (Some 7%Z) None false true w1
       = (inr (Frame people), w2).
Proof.
  apply (round_trip_nonzero gateway 7 true opened DB_LOCATION).
  - intros n db Hn Hdb. apply mini_to_sql_fresh; [reflexivity | exact Hn | exact Hdb].
  - intros n ps db Hn Hdb. apply mini_select_all_table; assumption.
  - lia.
  - vm_compute. reflexivity.
  - vm_compute. reflexivity.
Qed.

Example round_trip_tenant_7 :
  (query gateway "SELECT * FROM :tbl" (Some 7%Z) None false true
     (upload_df gateway people 7 opened).2).1
  = inr (Frame people).
Proof. vm_compute. reflexivity. Qed.


Lemma query_replaces_every_placeholder_witness :
  exists sent segs,
    journal (query gateway "SELECT a.* FROM :tbl a JOIN :tbl b" (Some 7%Z) None false true opened).2
    = journal opened ++ [stmt_call false sent]
    /\ "SELECT a.* FROM :tbl a JOIN :tbl b" = join ":tbl" segs
    /\ sent = join (user_table 7) segs
    /\ length segs = S (occurrences "SELECT a.* FROM :tbl a JOIN :tbl b" ":tbl")
    /\ Forall (fun seg => occurrences seg ":tbl" = 0) segs
    /\ occurrences sent ":tbl" = 0.
Proof.
  apply (query_replaces_every_placeholder gateway _ 7 None false true opened DB_LOCATION).
  - lia.
  - vm_compute. reflexivity.
Defined.

Example two_placeholders :
  occurrences "SELECT a.* FROM :tbl a JOIN :tbl b" ":tbl" = 2
  /\ scope "SELECT a.* FROM :tbl a JOIN :tbl b" (Some 7%Z)
     = "SELECT a.* FROM _user_data_0d50bf2d80753658dfd6ca68ca65cd24554707fc1c4f3f5051cc2fc5fdc96193 a JOIN _user_data_0d50bf2d80753658dfd6ca68ca65cd24554707fc1c4f3f5051cc2fc5fdc96193 b".
Proof. split; vm_compute; reflexivity. Qed.

Lemma query_error_policy_witness :
  query gateway "SELECT * FROM nowhere" None None false false opened
  = (inr (Frame (Frame_ ["Exception_text"]
       [[VText "Execution failed on sql 'SELECT * FROM nowhere': no such table: nowhere"]])),
     (run_statement gateway false "SELECT * FROM nowhere" ∅ opened).2).
Proof.
  refine (proj2 (proj2 (query_error_policy gateway "SELECT * FROM nowhere" None None
    false false opened (run_statement gateway false "SELECT * FROM nowhere" ∅ opened).2
    (Exn "DatabaseError" "Execution failed on sql 'SELECT * FROM nowhere': no such table: nowhere")
    _ _)) eq_refl).
  - vm_compute. reflexivity.
  - vm_compute. discriminate.
Defined.

(** C6 as stated fails: the statement faults with a description other than
    the sentinel text, [raise_on_error] is false, and the sole value of the
    frame that [query] returns is the empty string. *)
Lemma error_description_can_be_empty :
  let w := (post_init (E := exhausted) DB_LOCATION Mini.boot).2 in
  (run_statement (E := exhausted) gateway false "SELECT 1" ∅ w).1
  = inl (Exn "MemoryError" "")
  /\ "" <> SENTINEL
  /\ (query (E := exhausted) gateway "SELECT 1" None None false false w).1
     = inr (Frame (Frame_ ["Exception_text"] [[VText ""]])).
Proof. repeat split; try discriminate; vm_compute; reflexivity. Qed.

Lemma query_sentinel_is_none_witness :
  query gateway CREATE_DUMMY None None false false connected
  = (inr NoneVal, (run_statement gateway false CREATE_DUMMY ∅ connected).2).
Proof.
  apply (query_sentinel_is_none gateway CREATE_DUMMY None None false connected _
           (Exn "TypeError" SENTINEL)).
  - vm_compute. reflexivity.
  - reflexivity.
Defined.

Lemma bootstrap_runs_once_witness :
  journal opened = [ReadSql CREATE_DUMMY]
  /\ exists self' w3, post_init DB_LOCATION (close_connection gateway opened).2 = (inr self', w3)
                      /\ journal w3 = journal (close_connection gateway opened).2.
Proof.
  destruct (bootstrap_runs_once DB_LOCATION Mini.boot opened gateway) as [Hj Hagain].
  - vm_compute. reflexivity.
  - split; [exact Hj|]. apply Hagain. right. reflexivity.
Defined.

Lemma upload_rejects_unknown_extension_witness :
  exists ext,
    upload_csv (Update_ 5 "data.txt" "a,b") Mini.boot
    = (inl (Exn "TypeError" ("Unsupported file type: " +:+ ext)), Mini.boot)
    /\ has_char "." ext = false
    /\ ("data.txt" = ext \/ exists pre, "data.txt" = pre +:+ "." +:+ ext).
Proof.
  apply (upload_rejects_unknown_extension (Update_ 5 "data.txt" "a,b") Mini.boot);
    reflexivity.
Defined.

Example upload_txt :
  upload_csv (Update_ 5 "data.txt" "a,b") Mini.boot
  = (inl (Exn "TypeError" "Unsupported file type: txt"), Mini.boot).
Proof. vm_compute. reflexivity. Qed.

Example upload_csv_sees_empty_file :
  (upload_csv (Update_ 5 "data.csv" "a,b") Mini.boot).1
  = inl (Exn "EmptyDataError" "No columns to parse from file")
  /\ replies (upload_csv (Update_ 5 "data.csv" "a,b") Mini.boot).2 = []
  /\ tmpfiles (upload_csv (Update_ 5 "data.csv" "a,b") Mini.boot).2 = ∅.
Proof. repeat split; vm_compute; reflexivity. Qed.

Example upload_xlsx_stores :
  (upload_csv (E := sheets) (Update_ 5 "data.xlsx" "a,b") Mini.boot).1 = inr tt
  /\ replies (upload_csv (E := sheets) (Update_ 5 "data.xlsx" "a,b") Mini.boot).2
     = [(5%Z, "Uploaded successfully")]
  /\ tmpfiles (upload_csv (E := sheets) (Update_ 5 "data.xlsx" "a,b") Mini.boot).2 = ∅.
Proof. repeat split; vm_compute; reflexivity. Qed.

Lemma bootstrap_faults_swallowed_witness :
  query gateway CREATE_DUMMY None None false false connected
  = (inr NoneVal, (run_statement gateway false CREATE_DUMMY ∅ connected).2)
  /\ exists w'', post_init "/missing/bot_db.sqlite" Mini.boot = (inl (Exn "OperationalError" "unable to open database file"), w'').
Proof.
  destruct (bootstrap_faults_swallowed gateway "/missing/bot_db.sqlite" connected)
    as (_ & Hq & _ & _).
  split.
  - apply (Hq (Exn "TypeError" SENTINEL)). vm_compute. reflexivity.
  - eexists. vm_compute. reflexivity.
Defined.

(** C10 as stated fails: on a fresh file the CREATE statement faults, with
    the sentinel description, and [query] turns the fault into [None], not
    into a one-row error frame. *)
Lemma bootstrap_fault_can_become_none :
  (run_statement gateway false CREATE_DUMMY ∅ connected).1
  = inl (Exn "TypeError" "'NoneType' object is not iterable")
  /\ (query gateway CREATE_DUMMY None None false false connected).1 = inr NoneVal
  /\ forall df, NoneVal <> Frame df.
Proof. repeat split; try discriminate; vm_compute; reflexivity. Qed.

End Examples.

(** * Further properties of the gateway *)

(** ** What each operation leaves alone *)

Section Frames.
Context {E : Engine} {C : Config}.

Lemma conn_call_aside {A} (h : nat) (c : call)
    (run : database -> (exn + A) * database) (w : world) :
  aside (conn_call h c run w).2 = aside w.
Proof.
  unfold conn_call. destruct (handles w !! h) as [[path [|]]|]; try reflexivity.
  destruct (run _). reflexivity.
Qed.

Lemma conn_call_handles {A} (h : nat) (c : call)
    (run : database -> (exn + A) * database) (w : world) :
  handles (conn_call h c run w).2 = handles w.
Proof.
  unfold conn_call. destruct (handles w !! h) as [[path [|]]|]; try reflexivity.
  destruct (run _). reflexivity.
Qed.

(** A call through a handle that is not open is refused and changes
    nothing. *)
Lemma conn_call_refused {A} (h : nat) (c : call)
    (run : database -> (exn + A) * database) (w : world) :
  (forall path, handles w !! h <> Some (path, true)) ->
  conn_call h c run w = (inl CLOSED, w).
Proof.
  intros H. unfold conn_call.
  destruct (handles w !! h) as [[path [|]]|] eqn:Hh; try reflexivity.
  exfalso. apply (H path). reflexivity.
Qed.

Lemma run_statement_aside (self : DB) (safe : bool) (q : string) (ps : params_t) (w : world) :
  aside (run_statement self safe q ps w).2 = aside w.
Proof. unfold run_statement. destruct (negb safe); apply conn_call_aside. Qed.

Lemma run_statement_handles (self : DB) (safe : bool) (q : string) (ps : params_t) (w : world) :
  handles (run_statement self safe q ps w).2 = handles w.
Proof. unfold run_statement. destruct (negb safe); apply conn_call_handles. Qed.

Lemma run_statement_refused (self : DB) (safe : bool) (q : string) (ps : params_t) (w : world) :
  (forall path, handles w !! _db_conn self <> Some (path, true)) ->
  run_statement self safe q ps w = (inl CLOSED, w).
Proof. intros H. unfold run_statement. destruct (negb safe); apply conn_call_refused, H. Qed.

Lemma query_aside (self : DB) (q : string) (cid : option Z) (ps : option params_t)
    (safe roe : bool) (w : world) :
  aside (query self q cid ps safe roe w).2 = aside w.
Proof. rewrite query_world. apply run_statement_aside. Qed.

Lemma query_handles (self : DB) (q : string) (cid : option Z) (ps : option params_t)
    (safe roe : bool) (w : world) :
  handles (query self q cid ps safe roe w).2 = handles w.
Proof. rewrite query_world. apply run_statement_handles. Qed.

Lemma upload_df_aside (self : DB) (df : DataFrame) (id : Z) (w : world) :
  aside (upload_df self df id w).2 = aside w.
Proof. apply conn_call_aside. Qed.

(** [close_connection] as one step: the COMMIT, whose fault is dropped,
    then the close. *)
Lemma close_connection_eq (self : DB) (w : world) :
  close_connection self w
  = (inr tt, close (_db_conn self) (run_statement self false "COMMIT" ∅ w).2).
Proof.
  unfold close_connection, bind, try_except, ret.
  rewrite <- (query_world self "COMMIT" None None false true w).
  destruct (query _ _ _ _ _ _ w) as [[e|r] w']; reflexivity.
Qed.

Lemma close_connection_aside (self : DB) (w : world) :
  aside (close_connection self w).2 = aside w.
Proof.
  rewrite close_connection_eq. cbn [snd].
  rewrite <- (run_statement_aside self false "COMMIT" ∅ w). reflexivity.
Qed.

Lemma close_connection_handles (self : DB) (w : world) :
  handles (close_connection self w).2
  = alter (fun c => (c.1, false)) (_db_conn self) (handles w).
Proof.
  rewrite close_connection_eq. cbn [snd close handles].
  rewrite run_statement_handles. reflexivity.
Qed.

(** The constructor as one step. *)
Lemma post_init_eq (path : string) (w : world) :
  post_init path w
  = if can_open path then
      let self := DB_ path (length (handles w)) in
      let w0 := (connect path w).2 in
      (inr self,
       if bool_decide (is_Some (files w !! path))
          || bool_decide (is_Some (tmpfiles w !! path))
       then w0 else (run_statement self false CREATE_DUMMY ∅ w0).2)
    else (inl (Exn "OperationalError" "unable to open database file"), w).
Proof.
  unfold post_init, bind, path_exists, connect.
  destruct (can_open path); [|reflexivity].
  destruct (bool_decide (is_Some (files w !! path))
            || bool_decide (is_Some (tmpfiles w !! path))); cbn [negb].
  - reflexivity.
  - rewrite create_tables_returns. reflexivity.
Qed.

Lemma post_init_aside (path : string) (w : world) :
  aside (post_init path w).2 = aside w.
Proof.
  rewrite post_init_eq. destruct (can_open path) eqn:Ho; [|reflexivity].
  cbn zeta. cbn [snd]. destruct (_ || _).
  - unfold connect. rewrite Ho. reflexivity.
  - rewrite run_statement_aside. unfold connect. rewrite Ho. reflexivity.
Qed.

(** The [with] block: the body runs on the opened gateway, the connection
    is closed whatever the body did, and the outcome of the body is the
    outcome of the block. *)
Lemma with_DB_eq {A} (path : string) (body : DB -> Py A) (w : world) :
  with_DB path body w
  = match post_init path w with
    | (inr db, w0) => ((body db w0).1, (close_connection db (body db w0).2).2)
    | (inl e, w') => (inl e, w')
    end.
Proof.
  unfold with_DB, bind. destruct (post_init path w) as [[e|db] w0]; [reflexivity|].
  destruct (body db w0) as [r w1]. cbn [fst snd].
  rewrite close_connection_eq. reflexivity.
Qed.

End Frames.

(** ** Scoping and the error policy, further *)

Section QueryMore.
Context {E : Engine} {C : Config}.

(** Replacing a pattern that does not occur changes nothing. *)
Lemma replace_scan_absent (old new s : string) :
  occurrences s old = 0 -> replace_scan old new 0 s = s.
Proof.
  induction s as [|c s IH]; [reflexivity|]. cbn [occurrences replace_scan].
  destruct (startswith (String c s) old); [discriminate|].
  intros H. rewrite IH by exact H. reflexivity.
Qed.

Lemma scope_absent (q : string) (cid : option Z) :
  occurrences q ":tbl" = 0 -> scope q cid = q.
Proof.
  intros H. unfold scope. destruct cid as [id|]; [|reflexivity].
  destruct (truthy (Some id)); [|reflexivity].
  apply replace_scan_absent, H.
Qed.

Lemma scope_leaves_no_placeholder (q : string) (id : Z) :
  id <> 0%Z -> occurrences (scope q (Some id)) ":tbl" = 0.
Proof.
  intros Hid. rewrite (scope_nonzero _ _ Hid), replace_scan_join, user_table_shape.
  apply occurrences_join_new; [apply user_table_no_colon|].
  apply split_scan_free. discriminate.
Qed.

(** A statement that succeeds gives a frame or a cursor, never [None]. *)
Lemma run_statement_not_none (self : DB) (safe : bool) (q : string) (ps : params_t)
    (w : world) :
  (run_statement self safe q ps w).1 <> inr NoneVal.
Proof.
  unfold run_statement, conn_call.
  destruct (negb safe); destruct (handles w !! _db_conn self) as [[path [|]]|];
    try discriminate.
  - destruct (read_sql _ _ _) as [[e|df] db']; discriminate.
  - destruct (execute _ _ _) as [[e|c] db']; discriminate.
Qed.

(** X1: a query text without the placeholder is not rewritten, whatever
    [chat_id] is: the call is the call without [chat_id]. *)
Theorem query_without_placeholder_verbatim (self : DB) (q : string)
    (cid : option Z) (ps : option params_t) (safe roe : bool) (w : world) :
  occurrences q ":tbl" = 0 ->
  scope q cid = q
  /\ query self q cid ps safe roe w = query self q None ps safe roe w.
Proof.
  intros H. pose proof (scope_absent q cid H) as Hs. split; [exact Hs|].
  unfold query. rewrite Hs. reflexivity.
Qed.

(** X2: scoping is final: a text that was scoped for a tenant other than 0
    is left as it is by any further scoping, for the same or another
    tenant. *)
Theorem scope_idempotent (q : string) (a : Z) (cid : option Z) :
  a <> 0%Z -> scope (scope q (Some a)) cid = scope q (Some a).
Proof. intros Ha. apply scope_absent, scope_leaves_no_placeholder, Ha. Qed.

(** X3: [query] returns [None] only with [raise_on_error=False] and only
    for a fault of the statement whose description is the sentinel text. *)
Theorem query_none_only_from_sentinel (self : DB) (q : string) (cid : option Z)
    (ps : option params_t) (safe roe : bool) (w : world) :
  (query self q cid ps safe roe w).1 = inr NoneVal ->
  roe = false
  /\ exists e, (run_statement self safe (scope q cid) (default ∅ ps) w).1 = inl e
               /\ exn_str e = SENTINEL.
Proof.
  rewrite query_eq.
  pose proof (run_statement_not_none self safe (scope q cid) (default ∅ ps) w) as Hn.
  destruct (run_statement _ _ _ _ w) as [[e|r] w']; cbn [fst] in *.
  - destruct roe; [discriminate|].
    destruct (String.eqb_spec (exn_str e) SENTINEL) as [He|]; [|discriminate].
    intros _. split; [reflexivity|]. exists e. auto.
  - intros H. contradiction.
Qed.

(** After [close_connection] the handle is closed, if it was ever there. *)
Lemma closed_after_close (self : DB) (w : world) (path : string) :
  handles (close_connection self w).2 !! _db_conn self <> Some (path, true).
Proof.
  rewrite close_connection_handles, list_lookup_alter_eq.
  destruct (handles w !! _db_conn self) as [[p b]|]; discriminate.
Qed.

(** X4: after [close_connection], a query or an upload through the same
    gateway is refused with sqlite3's [ProgrammingError] before anything
    reaches the engine: the world stays as it is. With
    [raise_on_error=False] the refusal comes back as the error frame. *)
Theorem use_after_close_is_refused (self : DB) (q : string) (cid : option Z)
    (ps : option params_t) (safe : bool) (df : DataFrame) (id : Z) (w : world) :
  let w1 := (close_connection self w).2 in
  query self q cid ps safe true w1 = (inl CLOSED, w1)
  /\ query self q cid ps safe false w1 = (inr (Frame (error_frame (exn_str CLOSED))), w1)
  /\ upload_df self df id w1 = (inl CLOSED, w1).
Proof.
  intros w1.
  assert (H : forall path, handles w1 !! _db_conn self <> Some (path, true))
    by (intros path; apply closed_after_close).
  repeat split.
  - rewrite query_eq, (run_statement_refused _ _ _ _ _ H). reflexivity.
  - rewrite query_eq, (run_statement_refused _ _ _ _ _ H). reflexivity.
  - apply conn_call_refused, H.
Qed.

(** X5: [close_connection] never raises, whatever the COMMIT does. It
    closes the handle of the gateway and no other; on an open connection
    the COMMIT is the one statement it sends, through [pd.read_sql]; on a
    connection that is not open it sends nothing. *)
Theorem close_connection_commits_and_closes (self : DB) (w : world) :
  (close_connection self w).1 = inr tt
  /\ handles (close_connection self w).2
     = alter (fun c => (c.1, false)) (_db_conn self) (handles w)
  /\ (forall path, handles w !! _db_conn self = Some (path, true) ->
        handles (close_connection self w).2 !! _db_conn self = Some (path, false)
        /\ journal (close_connection self w).2 = journal w ++ [ReadSql "COMMIT"])
  /\ ((forall path, handles w !! _db_conn self <> Some (path, true)) ->
        journal (close_connection self w).2 = journal w
        /\ files (close_connection self w).2 = files w).
Proof.
  split; [rewrite close_connection_eq; reflexivity|].
  split; [apply close_connection_handles|]. split.
  - intros path Hh. split.
    + rewrite close_connection_handles, list_lookup_alter_eq, Hh. reflexivity.
    + rewrite close_connection_eq. cbn [snd close journal].
      exact (run_statement_journal self false "COMMIT" ∅ w path Hh).
  - intros Hh. rewrite close_connection_eq. cbn [snd close journal files].
    rewrite (run_statement_refused _ _ _ _ _ Hh). split; reflexivity.
Qed.

Lemma close_close (h : nat) (w : world) : close h (close h w) = close h w.
Proof.
  unfold close. cbn [files handles journal tmpfiles tmp_counter replies stdout].
  f_equal. rewrite list_alter_alter_eq. apply list_alter_ext; [|reflexivity].
  intros [p b] _. reflexivity.
Qed.

(** X6: closing twice is harmless: the second [close_connection] sends
    nothing to the engine and leaves the world exactly as the first left
    it. *)
Theorem close_connection_twice (self : DB) (w : world) :
  close_connection self (close_connection self w).2
  = (inr tt, (close_connection self w).2).
Proof.
  rewrite (close_connection_eq self (close_connection self w).2).
  rewrite (run_statement_refused self false "COMMIT" ∅ (close_connection self w).2)
    by (intros path; apply closed_after_close).
  cbn [snd]. rewrite close_connection_eq. cbn [snd].
  rewrite close_close. reflexivity.
Qed.

(** X18: with [raise_on_error=True], what [query] returns is a DataFrame
    when [safe] is false and the cursor of sqlite3 when [safe] is true,
    never the other and never [None]. *)
Theorem query_result_kind (self : DB) (q : string) (cid : option Z)
    (ps : option params_t) (safe : bool) (w : world) (r : result) :
  (query self q cid ps safe true w).1 = inr r ->
  if safe then exists c, r = CursorVal c else exists df, r = Frame df.
Proof.
  rewrite query_eq. unfold run_statement, conn_call.
  destruct safe; cbn [negb];
    destruct (handles w !! _db_conn self) as [[path [|]]|]; try discriminate.
  - destruct (execute _ _ _) as [[e|c] db']; [discriminate|].
    intros [= <-]. eauto.
  - destruct (read_sql _ _ _) as [[e|df] db']; [discriminate|].
    intros [= <-]. eauto.
Qed.

End QueryMore.

(** ** Opening, the [with] block and the handlers *)

Section Blocks.
Context {E : Engine} {C : Config}.

Lemma connect_handles (path : string) (w : world) :
  can_open path = true -> handles (connect path w).2 = handles w ++ [(path, true)].
Proof. intros Ho. unfold connect. rewrite Ho. reflexivity. Qed.

Lemma connect_files_other (path p : string) (w : world) :
  p <> path -> files (connect path w).2 !! p = files w !! p.
Proof.
  intros Hp. unfold connect. destruct (can_open path); [|reflexivity].
  cbn [snd files]. destruct (files w !! path); [reflexivity|].
  apply lookup_insert_ne. congruence.
Qed.

(** A call through a handle touches no file but the one of the handle. *)
Lemma conn_call_files_other {A} (h : nat) (c : call)
    (run : database -> (exn + A) * database) (w : world) (path p : string) (b : bool) :
  handles w !! h = Some (path, b) -> p <> path ->
  files (conn_call h c run w).2 !! p = files w !! p.
Proof.
  intros Hh Hp. unfold conn_call. rewrite Hh. destruct b; [|reflexivity].
  destruct (run _). cbn [snd files]. apply lookup_insert_ne. congruence.
Qed.

Lemma run_statement_files_other (self : DB) (safe : bool) (q : string) (ps : params_t)
    (w : world) (path p : string) (b : bool) :
  handles w !! _db_conn self = Some (path, b) -> p <> path ->
  files (run_statement self safe q ps w).2 !! p = files w !! p.
Proof.
  intros Hh Hp. unfold run_statement.
  destruct (negb safe); apply (conn_call_files_other _ _ _ _ _ _ _ Hh Hp).
Qed.

(** What a successful open gives, and the statements it ran. *)
Lemma post_init_opened (path : string) (w w0 : world) (db : DB) :
  post_init path w = (inr db, w0) ->
  db = DB_ path (length (handles w))
  /\ handles w0 = handles w ++ [(path, true)]
  /\ exists boot, journal w0 = journal w ++ boot
                  /\ (boot = [] \/ boot = [ReadSql CREATE_DUMMY]).
Proof.
  rewrite post_init_eq. destruct (can_open path) eqn:Ho; [|discriminate].
  cbn zeta. intros [= <- <-]. split; [reflexivity|].
  destruct (_ || _).
  - split; [apply connect_handles, Ho|]. exists [].
    rewrite app_nil_r. split; [|auto]. unfold connect. rewrite Ho. reflexivity.
  - rewrite run_statement_handles. split; [apply connect_handles, Ho|].
    exists [ReadSql CREATE_DUMMY]. split; [|auto].
    erewrite run_statement_journal.
    + unfold connect. rewrite Ho. reflexivity.
    + rewrite (connect_handles _ _ Ho). cbn [_db_conn].
      apply list_lookup_middle. reflexivity.
Qed.

Lemma close_last_handle (l : list (string * bool)) (path : string) (b : bool) :
  alter (fun c : string * bool => (c.1, false)) (length l) (l ++ [(path, b)])
  = l ++ [(path, false)].
Proof.
  rewrite alter_app_r_alt by lia. rewrite Nat.sub_diag. reflexivity.
Qed.

(** X7: in [with DB(path) as db: body], once the open has succeeded the
    outcome of the block is the outcome of the body, value or exception, and
    on both exits the connection that the block opened is closed; the
    connections that were there before are as they were. The hypothesis on
    the body is that it opens and closes no connection itself. *)
Theorem with_DB_closes_and_passes {A} (path : string) (body : DB -> Py A)
    (w w0 : world) (db : DB) :
  post_init path w = (inr db, w0) ->
  handles (body db w0).2 = handles w0 ->
  (with_DB path body w).1 = (body db w0).1
  /\ handles (with_DB path body w).2 = handles w ++ [(path, false)].
Proof.
  intros Hopen Hbody. rewrite with_DB_eq, Hopen. cbn [fst snd].
  split; [reflexivity|].
  destruct (post_init_opened _ _ _ _ Hopen) as (-> & Hh & _).
  rewrite close_connection_handles, Hbody, Hh. apply close_last_handle.
Qed.

(** X8: when [sqlite3.connect] fails, the [with] block raises its
    [OperationalError], the body is not run and the world is untouched: no
    file is created and nothing reaches the engine. *)
Theorem with_DB_open_failure {A} (path : string) (body : DB -> Py A) (w : world) :
  can_open path = false ->
  with_DB path body w
  = (inl (Exn "OperationalError" "unable to open database file"), w).
Proof. intros Ho. rewrite with_DB_eq, post_init_eq, Ho. reflexivity. Qed.

(** X9: a successful open returns a gateway on a new handle, open and last
    in the table of handles, and leaves the older handles, every other
    database file, the temporary files, the replies and the output as they
    were; when the database file existed, its content is unchanged too. *)
Theorem post_init_opens_new_handle (path : string) (w w1 : world) (self : DB) :
  post_init path w = (inr self, w1) ->
  self = DB_ path (length (handles w))
  /\ handles w1 = handles w ++ [(path, true)]
  /\ aside w1 = aside w
  /\ (forall p, p <> path -> files w1 !! p = files w !! p)
  /\ (is_Some (files w !! path) -> files w1 = files w).
Proof.
  intros H. destruct (post_init_opened _ _ _ _ H) as (Hs & Hh & _).
  split; [exact Hs|]. split; [exact Hh|].
  split; [rewrite <- (post_init_aside path w), H; reflexivity|].
  rewrite post_init_eq in H. destruct (can_open path) eqn:Ho; [|discriminate].
  cbn zeta in H. injection H as _ <-. split.
  - intros p Hp. destruct (_ || _).
    + apply connect_files_other, Hp.
    + erewrite run_statement_files_other; [apply connect_files_other, Hp | | exact Hp].
      rewrite (connect_handles _ _ Ho). cbn [_db_conn].
      apply list_lookup_middle. reflexivity.
  - intros Hf. rewrite (bool_decide_eq_true_2 _ Hf). cbn [orb].
    unfold connect. rewrite Ho. cbn [snd files].
    destruct Hf as [d Hd]. rewrite Hd. reflexivity.
Qed.

(** X19: a query on an open connection reaches the engine exactly once,
    with the scoped text, through [pd.read_sql] or [Connection.execute]
    according to [safe]; it opens and closes no connection, sends no reply
    and prints nothing. *)
Theorem query_reaches_engine_once (self : DB) (q : string) (cid : option Z)
    (ps : option params_t) (safe roe : bool) (w : world) (path : string) :
  handles w !! _db_conn self = Some (path, true) ->
  journal (query self q cid ps safe roe w).2 = journal w ++ [stmt_call safe (scope q cid)]
  /\ handles (query self q cid ps safe roe w).2 = handles w
  /\ replies (query self q cid ps safe roe w).2 = replies w
  /\ stdout (query self q cid ps safe roe w).2 = stdout w.
Proof.
  intros Hh. split; [|split].
  - rewrite query_world. apply (run_statement_journal _ _ _ _ _ _ Hh).
  - apply query_handles.
  - pose proof (query_aside self q cid ps safe roe w) as Ha.
    injection Ha as _ _ Hr Hs. split; assumption.
Qed.

End Blocks.


(** ** The upload handler, path by path *)

Section UploadPaths.
Context {E : Engine} {C : Config}.

Lemma last_char_app (s1 s2 : string) :
  s2 <> EmptyString -> last_char (s1 +:+ s2) = last_char s2.
Proof.
  intros H2. induction s1 as [|c s1 IH]; [reflexivity|].
  rewrite app_cons. cbn [last_char]. rewrite IH.
  destruct (s1 +:+ s2) eqn:Hs; [|reflexivity].
  destruct s1; [rewrite app_empty_l in Hs; contradiction | discriminate].
Qed.

Lemma endswith_last_char (fn p : string) :
  endswith fn p = true -> p <> EmptyString -> last_char fn = last_char p.
Proof. intros [pre ->]%endswith_iff Hp. apply last_char_app, Hp. Qed.

(** A name that ends in [.csv] ends in neither [.xlsx] nor [.xls]. *)
Lemma csv_not_excel (fn : string) :
  endswith fn ".csv" = true ->
  endswith fn ".xlsx" = false /\ endswith fn ".xls" = false.
Proof.
  intros Hcsv. apply endswith_last_char in Hcsv; [|discriminate].
  split.
  - destruct (endswith fn ".xlsx") eqn:H; [|reflexivity].
    apply endswith_last_char in H; [|discriminate]. rewrite Hcsv in H. discriminate.
  - destruct (endswith fn ".xls") eqn:H; [|reflexivity].
    apply endswith_last_char in H; [|discriminate]. rewrite Hcsv in H. discriminate.
Qed.

(** The lookup of [True] in the dictionary of [upload_csv]. *)
Lemma upload_csv_picks (fn : string) :
  (<[endswith fn ".xls" := ReadExcel]>
    (<[endswith fn ".xlsx" := ReadExcel]>
      (<[endswith fn ".csv" := ReadCsv]> (∅ : gmap bool decoder)))) !! true
  = recognized fn.
Proof.
  unfold recognized. destruct (endswith fn ".csv") eqn:Hcsv.
  - destruct (csv_not_excel fn Hcsv) as [-> ->]. reflexivity.
  - destruct (endswith fn ".xlsx"), (endswith fn ".xls"); reflexivity.
Qed.

Lemma upload_csv_unrecognized (update : Update) (w : world) :
  recognized (file_name update) = None ->
  exists e, upload_csv update w = (inl e, w).
Proof.
  intros H. unfold upload_csv. rewrite upload_csv_picks, H. eexists. reflexivity.
Qed.

(** The handler with a recognized extension, case by case. *)
Lemma upload_csv_run (update : Update) (w : world) (m : decoder) :
  recognized (file_name update) = Some m ->
  upload_csv update w
  = let name := next_tmp w in
    let w1 := (NamedTemporaryFile w).2 in
    match download (document update) with
    | inl e => (inl e, unlink name (print (exn_str e) w1).2)
    | inr bytes =>
        let w2 := (download_to (document update) name w1).2 in
        match decode_handle m bytes (String.length bytes) with
        | inl e => (inl e, unlink name (print (exn_str e) w2).2)
        | inr df =>
            match with_DB DB_LOCATION
                    (fun db => upload_df db df (chat_id_of update)) w2 with
            | (inl e, w3) => (inl e, unlink name (print (exn_str e) w3).2)
            | (inr _, w3) =>
                (inr tt,
                 unlink name
                   (reply_text (chat_id_of update) "Uploaded successfully" w3).2)
            end
        end
    end.
Proof.
  intros H. unfold upload_csv. rewrite upload_csv_picks, H.
  unfold bind, try_finally, try_except, NamedTemporaryFile, download_to, raise, next_tmp.
  cbn zeta beta iota.
  destruct (download (document update)) as [e|bytes]; [reflexivity|].
  cbn [snd tmpfiles]. rewrite lookup_insert_eq.
  change (default EmptyString (Some bytes)) with bytes.
  destruct (decode_handle m bytes (String.length bytes)) as [e|df]; [reflexivity|].
  destruct (with_DB _ _ _) as [[e|[]] w3]; reflexivity.
Qed.

End UploadPaths.

Section UploadProperties.
Context {E : Engine} {C : Config}.

(** The storing step of the handler on its own. *)
Lemma store_aside (df : DataFrame) (chat : Z) (w : world) :
  aside (with_DB DB_LOCATION (fun db => upload_df db df chat) w).2 = aside w.
Proof.
  rewrite with_DB_eq. destruct (post_init DB_LOCATION w) as [[e|db] w0] eqn:Ho.
  - rewrite <- (post_init_aside DB_LOCATION w), Ho. reflexivity.
  - cbn [snd]. rewrite close_connection_aside, upload_df_aside.
    rewrite <- (post_init_aside DB_LOCATION w), Ho. reflexivity.
Qed.

Lemma store_handles (df : DataFrame) (chat : Z) (w : world) :
  handles (with_DB DB_LOCATION (fun db => upload_df db df chat) w).2 = handles w
  \/ handles (with_DB DB_LOCATION (fun db => upload_df db df chat) w).2
     = handles w ++ [(DB_LOCATION, false)].
Proof.
  rewrite with_DB_eq. destruct (post_init DB_LOCATION w) as [[e|db] w0] eqn:Ho.
  - left. rewrite post_init_eq in Ho. destruct (can_open DB_LOCATION); [discriminate|].
    injection Ho as _ <-. reflexivity.
  - right. cbn [snd]. destruct (post_init_opened _ _ _ _ Ho) as (-> & Hh & _).
    rewrite close_connection_handles, upload_df_handles, Hh. apply close_last_handle.
Qed.

Lemma store_journal (df : DataFrame) (chat : Z) (w : world) :
  (with_DB DB_LOCATION (fun db => upload_df db df chat) w).1 = inr tt ->
  exists boot,
    journal (with_DB DB_LOCATION (fun db => upload_df db df chat) w).2
    = journal w ++ boot ++ [ToSql (user_table chat); ReadSql "COMMIT"]
    /\ (boot = [] \/ boot = [ReadSql CREATE_DUMMY]).
Proof.
  rewrite with_DB_eq. destruct (post_init DB_LOCATION w) as [[e|db] w0] eqn:Ho;
    [discriminate|]. cbn [fst snd]. intros _.
  destruct (post_init_opened _ _ _ _ Ho) as (Hdb & Hh & boot & Hj & Hboot).
  exists boot. split; [|exact Hboot].
  assert (Hopen : handles w0 !! _db_conn db = Some (DB_LOCATION, true)).
  { rewrite Hdb, Hh. cbn [_db_conn]. apply list_lookup_middle. reflexivity. }
  rewrite close_connection_eq. cbn [snd close journal].
  erewrite run_statement_journal by (rewrite upload_df_handles; exact Hopen).
  unfold upload_df. erewrite conn_call_journal by exact Hopen.
  rewrite Hj, <- !app_assoc. reflexivity.
Qed.

(** X12: [upload_csv] leaks nothing: when the name of the next temporary
    file is free, the temporary files are afterwards exactly what they were,
    on success and on every fault, and no connection is left open: the
    handles are as before, or followed by one closed handle of the bot's
    database. *)
Theorem upload_csv_releases_resources (update : Update) (w : world) :
  tmpfiles w !! next_tmp w = None ->
  tmpfiles (upload_csv update w).2 = tmpfiles w
  /\ (handles (upload_csv update w).2 = handles w
      \/ handles (upload_csv update w).2 = handles w ++ [(DB_LOCATION, false)]).
Proof.
  intros Hfresh. destruct (recognized (file_name update)) as [m|] eqn:Hrec.
  2:{ destruct (upload_csv_unrecognized update w Hrec) as [e ->]. auto. }
  rewrite (upload_csv_run update w m Hrec). cbn zeta.
  unfold NamedTemporaryFile, download_to, next_tmp in *.
  destruct (download (document update)) as [e|bytes].
  { cbn [snd unlink print tmpfiles handles]. rewrite delete_insert_id by exact Hfresh. auto. }
  cbn [snd]. destruct (decode_handle m bytes (String.length bytes)) as [e|df].
  { cbn [snd unlink print tmpfiles handles].
    rewrite delete_insert_eq; rewrite delete_insert_id by exact Hfresh. auto. }
  set (w2 := World _ _ _ _ _ _ _).
  pose proof (store_aside df (chat_id_of update) w2) as Ha.
  pose proof (store_handles df (chat_id_of update) w2) as Hh.
  destruct (with_DB _ _ w2) as [[e|[]] w3]; cbn [snd] in Ha, Hh |- *.
  all: injection Ha as Ht _ _ _; cbn [unlink print reply_text snd tmpfiles handles];
    rewrite Ht; subst w2; cbn [tmpfiles handles] in *;
    rewrite delete_insert_eq; rewrite delete_insert_id by exact Hfresh; auto.
Qed.

(** X13: when the download of the document faults, [upload_csv] prints the
    fault and raises it; no reply is sent, no connection is opened, nothing
    reaches the engine, and the temporary file is gone. *)
Theorem upload_csv_download_fault (update : Update) (w : world) (e : exn) :
  endswith (file_name update) ".csv" || endswith (file_name update) ".xlsx"
  || endswith (file_name update) ".xls" = true ->
  download (document update) = inl e ->
  upload_csv update w = (inl e, after_fault w e).
Proof.
  intros Hext Hd. destruct (recognized (file_name update)) as [m|] eqn:Hrec.
  - rewrite (upload_csv_run update w m Hrec). cbn zeta. rewrite Hd.
    unfold after_fault, NamedTemporaryFile, next_tmp, unlink, print.
    cbn [snd files handles journal tmpfiles tmp_counter replies stdout].
    rewrite delete_insert_eq. reflexivity.
  - unfold recognized in Hrec.
    destruct (endswith _ ".csv"), (endswith _ ".xlsx"), (endswith _ ".xls");
      discriminate.
Qed.

Lemma upload_csv_decode_fault (update : Update) (w : world) (m : decoder)
    (bytes : string) (e : exn) :
  recognized (file_name update) = Some m ->
  download (document update) = inr bytes ->
  decode_handle m bytes (String.length bytes) = inl e ->
  upload_csv update w = (inl e, after_fault w e).
Proof.
  intros Hrec Hd Hm. rewrite (upload_csv_run update w m Hrec). cbn zeta.
  rewrite Hd, Hm. unfold after_fault, NamedTemporaryFile, download_to, next_tmp.
  rewrite Hd. unfold unlink, print.
  cbn [snd files handles journal tmpfiles tmp_counter replies stdout].
  rewrite !delete_insert_eq. reflexivity.
Qed.

(** What is left of a file after its last character is nothing. *)
Lemma string_drop_all (s : string) : string_drop (String.length s) s = EmptyString.
Proof. induction s as [|c s IH]; [reflexivity | exact IH]. Qed.

(** X14: for a name that ends in [.csv], [pd.read_csv] is given the file
    object that the download has left at the end of the file, so it reads
    the empty text whatever was downloaded: when [read_csv] faults on the
    empty text, [upload_csv] prints that fault and raises it, sends no reply
    and does not touch storage. *)
Theorem upload_csv_csv_reads_at_end_of_file (update : Update) (w : world)
    (bytes : string) (e : exn) :
  endswith (file_name update) ".csv" = true ->
  download (document update) = inr bytes ->
  read_csv EmptyString = inl e ->
  upload_csv update w = (inl e, after_fault w e).
Proof.
  intros Hext Hd Hm. apply (upload_csv_decode_fault update w ReadCsv bytes e); auto.
  - unfold recognized. rewrite Hext. reflexivity.
  - cbn [decode_handle]. rewrite string_drop_all. exact Hm.
Qed.

(** X15: a name that ends in [.xlsx] or [.xls] is decoded by
    [pd.read_excel]: when it faults on the downloaded bytes, [upload_csv]
    prints the fault and raises it, and storage is not touched. *)
Theorem upload_csv_excel_decode_fault (update : Update) (w : world)
    (bytes : string) (e : exn) :
  endswith (file_name update) ".xlsx" || endswith (file_name update) ".xls" = true ->
  download (document update) = inr bytes ->
  read_excel bytes = inl e ->
  upload_csv update w = (inl e, after_fault w e).
Proof.
  intros Hext Hd Hm. apply (upload_csv_decode_fault update w ReadExcel bytes e); auto.
  unfold recognized. rewrite Hext.
  destruct (endswith (file_name update) ".csv") eqn:Hcsv; [|reflexivity].
  destruct (csv_not_excel _ Hcsv) as [H1 H2]. rewrite H1, H2 in Hext. discriminate.
Qed.

(** X16: the reply [Uploaded successfully] is sent exactly when
    [upload_csv] returns: then it is the one reply and nothing is printed;
    when [upload_csv] raises, no reply is sent and, unless the extension
    was refused at once, the description of the fault is printed. *)
Theorem upload_csv_acknowledges_exactly_success (update : Update) (w : world) :
  match (upload_csv update w).1 with
  | inr _ =>
      replies (upload_csv update w).2
      = replies w ++ [(chat_id_of update, "Uploaded successfully")]
      /\ stdout (upload_csv update w).2 = stdout w
  | inl e =>
      replies (upload_csv update w).2 = replies w
      /\ stdout (upload_csv update w).2
         = stdout w ++
           (if endswith (file_name update) ".csv"
               || endswith (file_name update) ".xlsx"
               || endswith (file_name update) ".xls"
            then [exn_str e] else [])
  end.
Proof.
  destruct (recognized (file_name update)) as [m|] eqn:Hrec.
  2:{ destruct (upload_csv_unrecognized update w Hrec) as [e ->]. cbn [fst snd].
      unfold recognized in Hrec. destruct (endswith _ ".csv"); [discriminate|].
      destruct (endswith _ ".xlsx" || endswith _ ".xls") eqn:Hx; [discriminate|].
      cbn [orb]. rewrite Hx, app_nil_r. auto. }
  assert (Hext : endswith (file_name update) ".csv"
                 || endswith (file_name update) ".xlsx"
                 || endswith (file_name update) ".xls" = true).
  { unfold recognized in Hrec. destruct (endswith _ ".csv"); [reflexivity|].
    cbn [orb]. destruct (endswith _ ".xlsx" || endswith _ ".xls"); [reflexivity | discriminate]. }
  rewrite Hext, (upload_csv_run update w m Hrec). cbn zeta.
  unfold NamedTemporaryFile, download_to.
  destruct (download (document update)) as [e|bytes]; [cbn; auto|].
  cbn [snd]. destruct (decode_handle m bytes (String.length bytes)) as [e|df]; [cbn; auto|].
  set (w2 := World _ _ _ _ _ _ _).
  pose proof (store_aside df (chat_id_of update) w2) as Ha.
  destruct (with_DB _ _ w2) as [[e|[]] w3]; cbn [snd] in Ha |- *;
    injection Ha as _ _ Hr Hs; cbn [fst snd unlink print reply_text replies stdout];
    rewrite Hr, Hs; subst w2; auto.
Qed.


End UploadProperties.

(** ** The further properties on concrete inputs *)

Section MoreExamples.
Import Demo.

Lemma query_without_placeholder_verbatim_witness :
  scope "SELECT 1" (Some 7%Z) = "SELECT 1"
  /\ query gateway "SELECT 1" (Some 7%Z) None false true opened
     = query gateway "SELECT 1" None None false true opened.
Proof.
  apply (query_without_placeholder_verbatim gateway "SELECT 1" (Some 7%Z) None false true opened).
  reflexivity.
Defined.

Lemma scope_idempotent_witness :
  scope (scope "SELECT * FROM :tbl" (Some 7%Z)) (Some 9%Z)
  = scope "SELECT * FROM :tbl" (Some 7%Z).
Proof. apply (scope_idempotent "SELECT * FROM :tbl" 7 (Some 9%Z)). lia. Defined.

Lemma query_none_only_from_sentinel_witness :
  false = false
  /\ exists e, (run_statement gateway false (scope CREATE_DUMMY None) (default ∅ None) connected).1
               = inl e
               /\ exn_str e = SENTINEL.
Proof.
  apply (query_none_only_from_sentinel gateway CREATE_DUMMY None None false false connected).
  vm_compute. reflexivity.
Defined.

Lemma close_connection_commits_and_closes_witness :
  handles (close_connection gateway opened).2 !! 0 = Some (DB_LOCATION, false)
  /\ journal (close_connection gateway opened).2 = journal opened ++ [ReadSql "COMMIT"].
Proof.
  destruct (close_connection_commits_and_closes gateway opened) as (_ & _ & H & _).
  apply (H DB_LOCATION). vm_compute. reflexivity.
Defined.

Lemma with_DB_closes_and_passes_witness :
  (with_DB DB_LOCATION (fun db => upload_df db people 7) Mini.boot).1
  = (upload_df gateway people 7 opened).1
  /\ handles (with_DB DB_LOCATION (fun db => upload_df db people 7) Mini.boot).2
     = handles Mini.boot ++ [(DB_LOCATION, false)].
Proof.
  apply (with_DB_closes_and_passes DB_LOCATION (fun db => upload_df db people 7)
           Mini.boot opened gateway).
  - vm_compute. reflexivity.
  - apply upload_df_handles.
Defined.

Lemma with_DB_open_failure_witness :
  with_DB "/missing/bot_db.sqlite" (fun db => upload_df db people 7) Mini.boot
  = (inl (Exn "OperationalError" "unable to open database file"), Mini.boot).
Proof.
  apply (with_DB_open_failure "/missing/bot_db.sqlite" (fun db => upload_df db people 7) Mini.boot).
  reflexivity.
Defined.

Lemma post_init_opens_new_handle_witness :
  gateway = DB_ DB_LOCATION (length (handles Mini.boot))
  /\ handles opened = handles Mini.boot ++ [(DB_LOCATION, true)]
  /\ aside opened = aside Mini.boot
  /\ (forall p, p <> DB_LOCATION -> files opened !! p = files Mini.boot !! p)
  /\ (is_Some (files Mini.boot !! DB_LOCATION) -> files opened = files Mini.boot).
Proof.
  apply (post_init_opens_new_handle DB_LOCATION Mini.boot opened gateway).
  vm_compute. reflexivity.
Defined.

Lemma upload_csv_releases_resources_witness :
  tmpfiles (upload_csv (Update_ 5 "data.csv" "a,b") Mini.boot).2 = tmpfiles Mini.boot
  /\ (handles (upload_csv (Update_ 5 "data.csv" "a,b") Mini.boot).2 = handles Mini.boot
      \/ handles (upload_csv (Update_ 5 "data.csv" "a,b") Mini.boot).2
         = handles Mini.boot ++ [(DB_LOCATION, false)]).
Proof.
  apply (upload_csv_releases_resources (Update_ 5 "data.csv" "a,b") Mini.boot).
  reflexivity.
Defined.

Lemma upload_csv_download_fault_witness :
  upload_csv (E := Faulty (Exn "NetworkError" "timed out"))
    (Update_ 5 "data.csv" "a,b") Mini.boot
  = (inl (Exn "NetworkError" "timed out"),
     after_fault Mini.boot (Exn "NetworkError" "timed out")).
Proof.
  apply (upload_csv_download_fault (E := Faulty (Exn "NetworkError" "timed out"))
           (Update_ 5 "data.csv" "a,b") Mini.boot); reflexivity.
Defined.

Lemma upload_csv_csv_reads_at_end_of_file_witness :
  upload_csv (Update_ 5 "data.csv" "a,b") Mini.boot
  = (inl (Exn "EmptyDataError" "No columns to parse from file"),
     after_fault Mini.boot (Exn "EmptyDataError" "No columns to parse from file")).
Proof.
  apply (upload_csv_csv_reads_at_end_of_file (Update_ 5 "data.csv" "a,b") Mini.boot "a,b");
    reflexivity.
Defined.

Lemma upload_csv_excel_decode_fault_witness :
  upload_csv (Update_ 5 "sheet.xlsx" "a,b") Mini.boot
  = (inl (Exn "ValueError" "Excel file format cannot be determined"),
     after_fault Mini.boot (Exn "ValueError" "Excel file format cannot be determined")).
Proof.
  apply (upload_csv_excel_decode_fault (Update_ 5 "sheet.xlsx" "a,b") Mini.boot "a,b");
    reflexivity.
Defined.


Lemma query_result_kind_witness :
  exists df, Frame people = Frame df.
Proof.
  apply (query_result_kind gateway "SELECT * FROM :tbl" (Some 7%Z) None false
           (upload_df gateway people 7 opened).2 (Frame people)).
  vm_compute. reflexivity.
Defined.

Lemma query_reaches_engine_once_witness :
  journal (query gateway "COMMIT" None None false true opened).2
  = journal opened ++ [stmt_call false (scope "COMMIT" None)]
  /\ handles (query gateway "COMMIT" None None false true opened).2 = handles opened
  /\ replies (query gateway "COMMIT" None None false true opened).2 = replies opened
  /\ stdout (query gateway "COMMIT" None None false true opened).2 = stdout opened.
Proof.
  apply (query_reaches_engine_once gateway "COMMIT" None None false true opened DB_LOCATION).
  vm_compute. reflexivity.
Defined.

Example use_after_close :
  (query gateway "SELECT 1" None None false true (close_connection gateway opened).2).1
  = inl (Exn "ProgrammingError" "Cannot operate on a closed database.").
Proof. vm_compute. reflexivity. Qed.

Example upload_xls_is_excel :
  recognized "book.xls" = Some ReadExcel
  /\ recognized "a.csv" = Some ReadCsv
  /\ recognized "a.CSV" = None.
Proof. repeat split. Qed.

End MoreExamples.
